(** * QAOA notebooks of qml-mooc: the variational objective and its optimisation

    The development embeds the code cells of the two
    [07_Variational_Circuits] notebooks:

    - the lecture notebook (Qiskit opflow version), module [Lecture]:
      [pauli_x], [pauli_z], [product_pauli_z], [Hm], [Hc], [init_state],
      [evolve], [create_circuit], [evaluate_hamiltonian];
    - the coding assignment, module [Assignment]: the same helpers over the
      legacy [Operator] class, [create_circuit] and [evaluate_circuit] with
      their Qiskit and PyQuil branches.

    Python floats are read as real numbers, complex numbers as pairs of
    reals.  The vendor SDK (operator algebra, simulator, minimiser) is not
    part of the repository; what the notebooks need from it is modelled in
    the first sections and named after the SDK entry points. *)

From Stdlib Require Import Reals List Lra Lia Bool Arith Psatz.
Set Warnings "-register-all".
Import ListNotations.
Local Open Scope R_scope.

(** ** Complex numbers as pairs of reals *)

Definition C : Type := (R * R)%type.

Definition Cre (c : C) : R := fst c.
Definition Cim (c : C) : R := snd c.
Definition RtoC (r : R) : C := (r, 0).
Definition Czero : C := (0, 0).
Definition Cone : C := (1, 0).
Definition Cimag : C := (0, 1).
Definition Cadd (a b : C) : C := (fst a + fst b, snd a + snd b).
Definition Copp (a : C) : C := (- fst a, - snd a).
Definition Cmul (a b : C) : C :=
  (fst a * fst b - snd a * snd b, fst a * snd b + snd a * fst b).
Definition Cconj (a : C) : C := (fst a, - snd a).
Definition Cscale (r : R) (a : C) : C := (r * fst a, r * snd a).
Definition Cnorm2 (a : C) : R := fst a * fst a + snd a * snd a.

(** ** Dense matrices and vectors, as numpy holds them *)

Definition vector : Type := list C.
Definition matrix : Type := list (list C).

Definition vnth (v : vector) (r : nat) : C := nth r v Czero.

Definition Csum (l : list C) : C := fold_right Cadd Czero l.

(** [row @ v]: the products are taken over the common prefix. *)
Definition dot (row v : vector) : C :=
  Csum (map (fun ab => Cmul (fst ab) (snd ab)) (combine row v)).

Definition mat_vec (m : matrix) (v : vector) : vector :=
  map (fun row => dot row v) m.

Definition mat_scale (c : C) (m : matrix) : matrix := map (map (Cmul c)) m.

Definition mat_add (a b : matrix) : matrix :=
  map (fun rr => map (fun ab => Cadd (fst ab) (snd ab)) (combine (fst rr) (snd rr)))
      (combine a b).

Definition mat_zero (n : nat) : matrix := repeat (repeat Czero n) n.

(** [sparse.bmat([[a*m, b*m], [c*m, d*m]])] *)
Definition bmat (a b c d : C) (m : matrix) : matrix :=
  map (fun row => map (Cmul a) row ++ map (Cmul b) row) m ++
  map (fun row => map (Cmul c) row ++ map (Cmul d) row) m.

Definition real_matrix (m : list (list R)) : matrix := map (map RtoC) m.

(** The dense form of a matrix stored by its diagonal. *)
Definition diag_matrix (d : list R) : matrix :=
  map (fun i => map (fun j => if Nat.eqb i j then RtoC (nth i d 0) else Czero)
                    (seq 0 (length d)))
      (seq 0 (length d)).

(** ** [qiskit.quantum_info.Pauli]

    A Pauli string is held as two bit vectors, one for Z and one for X;
    entry [i] speaks about qubit [i]. *)

Record Pauli : Type := mkPauli { pauli_z_bits : list bool; pauli_x_bits : list bool }.

(** [np.zeros(n)] and [np.eye(n)[q]], read as bit vectors. *)
Definition np_zeros (n : nat) : list bool := repeat false n.
Definition np_eye_row (n q : nat) : list bool := map (fun j => Nat.eqb j q) (seq 0 n).

(** [Pauli.__mul__]: the bit vectors are added modulo 2, the phase dropped. *)
Definition Pauli_mul (a b : Pauli) : Pauli :=
  mkPauli
    (map (fun zz => xorb (fst zz) (snd zz)) (combine (pauli_z_bits a) (pauli_z_bits b)))
    (map (fun xx => xorb (fst xx) (snd xx)) (combine (pauli_x_bits a) (pauli_x_bits b))).

(** [Pauli.to_spmatrix]: starting from the 1x1 matrix [1], every qubit in
    turn wraps the matrix built so far in a 2x2 block pattern, so that
    qubit 0 ends up as the least significant index bit. *)
Definition pauli_block (m : matrix) (zx : bool * bool) : matrix :=
  match zx with
  | (false, false) => bmat Cone Czero Czero Cone m
  | (true, false) => bmat Cone Czero Czero (Copp Cone) m
  | (false, true) => bmat Czero Cone Cone Czero m
  | (true, true) => bmat Czero (Copp Cimag) Cimag Czero m
  end.

Definition Pauli_to_matrix (P : Pauli) : matrix :=
  fold_left pauli_block (combine (pauli_z_bits P) (pauli_x_bits P)) [[Cone]].

(** ** Weighted sums of Pauli strings

    Both the legacy [Operator([[coeff, Pauli], ...])] and opflow's
    [SummedOp([PauliOp(Pauli, coeff), ...])] are lists of weighted Pauli
    strings; [+] concatenates the lists. *)

Definition Operator : Type := list (R * Pauli).

Definition Operator_add (a b : Operator) : Operator := a ++ b.

(** [to_matrix()] of a sum over [n] qubits. *)
Definition Operator_to_matrix (n : nat) (H : Operator) : matrix :=
  fold_left (fun acc t => mat_add acc (mat_scale (RtoC (fst t)) (Pauli_to_matrix (snd t))))
            H (mat_zero (2 ^ n)).

Definition Operator_scale (a : R) (H : Operator) : Operator :=
  map (fun t => (a * fst t, snd t)) H.

(** ** The expectation oracle

    What the notebooks ask of a backend: prepare a register in given
    amplitudes, apply [e^{-iH}] for a weighted Pauli sum [H], and return the
    expectation of an observable in a state.  A sampling backend consumes
    randomness, so the expectation threads the backend's generator state. *)

Record Backend : Type := mkBackend {
  rng_state : Type;
  qstate : Type;
  prepare : vector -> qstate;
  exp_i : Operator -> qstate -> qstate;
  expectation : Operator -> qstate -> rng_state -> C * rng_state
}.

(** A backend is exact when the value it returns does not depend on the
    generator state. *)
Definition exact_backend (B : Backend) : Prop :=
  forall H s r1 r2, fst (expectation B H s r1) = fst (expectation B H s r2).

(** ** Effects of a notebook cell: Python exceptions and backend calls *)

Inductive exn : Type := IndexError | TypeError.

Definition result (A : Type) : Type := (exn + A)%type.

Definition result_bind {A B : Type} (r : result A) (k : A -> result B) : result B :=
  match r with
  | inl e => inl e
  | inr a => k a
  end.

(** [l[i]] for a non-negative index. *)
Definition getitem (l : list R) (i : nat) : result R :=
  match nth_error l i with
  | Some v => inr v
  | None => inl IndexError
  end.

(** A list comprehension whose body may raise: the first failure wins. *)
Fixpoint comprehension {A B : Type} (f : A -> result B) (l : list A) : result (list B) :=
  match l with
  | [] => inr []
  | a :: l' =>
      result_bind (f a) (fun b =>
      result_bind (comprehension f l') (fun bs => inr (b :: bs)))
  end.

Section Effects.
Variable B : Backend.

Record world : Type := mkWorld { rng : rng_state B; oracle_calls : nat }.

Definition M (A : Type) : Type := world -> result A * world.

Definition ret {A : Type} (a : A) : M A := fun w => (inr a, w).

Definition bind {A A' : Type} (m : M A) (k : A -> M A') : M A' :=
  fun w =>
    match m w with
    | (inl e, w') => (inl e, w')
    | (inr a, w') => k a w'
    end.

Definition lift {A : Type} (r : result A) : M A := fun w => (r, w).

(** One backend job: the expectation of [H] in the state [s]. *)
Definition call_oracle (H : Operator) (s : qstate B) : M C :=
  fun w =>
    let (v, r') := expectation B H s (rng w) in
    (inr v, mkWorld r' (S (oracle_calls w))).
End Effects.

Arguments ret {B A} a.
Arguments bind {B A A'} m k.
Arguments lift {B A} r.
Arguments rng {B} w.
Arguments oracle_calls {B} w.
Arguments mkWorld {B} rng oracle_calls.

Declare Scope cell_scope.
Delimit Scope cell_scope with cell.
Notation "x <- m ;; k" := (bind m (fun x => k))
  (at level 61, m at next level, right associativity) : cell_scope.

(** ** The statevector simulator, over exact reals *)

Definition inner (a b : vector) : C :=
  Csum (map (fun ab => Cmul (Cconj (fst ab)) (snd ab)) (combine a b)).

(** [e^{-i theta P} psi = cos(theta) psi - i sin(theta) (P psi)] *)
Definition pauli_rotation (theta : R) (P : Pauli) (psi : vector) : vector :=
  map (fun r =>
         Cadd (Cscale (cos theta) (vnth psi r))
              (Cmul (0, - sin theta) (vnth (mat_vec (Pauli_to_matrix P) psi) r)))
      (seq 0 (length psi)).

(** The evolution under a sum is the product of the evolutions under its
    terms, which is exact when the terms commute, as they do in every
    Hamiltonian of the notebooks. *)
Definition exp_i_sv (H : Operator) (psi : vector) : vector :=
  fold_left (fun s t => pauli_rotation (fst t) (snd t) s) H psi.

Definition expectation_sv (H : Operator) (psi : vector) : C :=
  Csum (map (fun t => Cscale (fst t) (inner psi (mat_vec (Pauli_to_matrix (snd t)) psi))) H).

Definition statevector_simulator : Backend :=
  mkBackend nat vector (fun v => v) exp_i_sv
            (fun H psi seed => (expectation_sv H psi, seed)).

(** ** The classical optimiser *)

(** Modelled from the spec: the optimisation result record of
    [scipy.optimize], with its best point [x], the value [fun] there, the
    counts of evaluations and iterations, and the convergence status. *)
Record OptimizeResult : Type := mkResult {
  x : list R;
  fun_ : R;
  nfev : nat;
  nit : nat;
  success : bool
}.

(** Modelled from the spec: a search strategy with its options, the
    [method] and [options] arguments of [scipy.optimize.minimize]: how it
    starts from the first evaluation, which point it tries next, what it
    learns from a value, when it declares convergence, and its iteration
    cap. *)
Record Strategy : Type := mkStrategy {
  memory : Type;
  start : list R -> R -> memory;
  candidate : memory -> list R;
  observe : memory -> list R -> R -> memory;
  converged : memory -> bool;
  maxiter : nat
}.

Section Minimize.
Variable B : Backend.
Variable S_ : Strategy.
Variable objective : list R -> M B R.

Local Open Scope cell_scope.

(** Modelled from the spec: the loop of the driver, one objective
    evaluation per iteration, the convergence test first. *)
Fixpoint iterate (fuel : nat) (st : memory S_) (best_x : list R) (best_f : R)
         (evals its : nat) : M B OptimizeResult :=
  if converged S_ st then ret (mkResult best_x best_f evals its true)
  else
    match fuel with
    | O => ret (mkResult best_x best_f evals its false)
    | S fuel' =>
        let c := candidate S_ st in
        fc <- objective c ;;
        if Rlt_dec fc best_f
        then iterate fuel' (observe S_ st c fc) c fc (S evals) (S its)
        else iterate fuel' (observe S_ st c fc) best_x best_f (S evals) (S its)
    end.

(** Modelled from the spec: [scipy.optimize.minimize], of which the
    notebooks hold only the call sites.  The driver evaluates the start
    point, then issues one objective evaluation at a time, keeps the best
    point seen, and stops on the strategy's convergence test or at its
    iteration cap; reaching the cap is reported in [success], an exception
    of the objective propagates. *)
Definition minimize (x0 : list R) : M B OptimizeResult :=
  f0 <- objective x0 ;;
  iterate (maxiter S_) (start S_ x0 f0) x0 f0 1%nat 0%nat.
End Minimize.


(** ** The lecture notebook (opflow version) *)

Module Lecture.

(** The opflow expressions the notebook builds. *)
Inductive OperatorBase : Type :=
| VectorStateFn (primitive : list R) (coeff : R)
| EvolvedOp (primitive : Operator)
| ComposedOp (oplist : list OperatorBase).

Definition PauliOp (P : Pauli) (coeff : R) : R * Pauli := (coeff, P).
Definition SummedOp (oplist : list (R * Pauli)) : Operator := oplist.

(** [a @ b] *)
Definition compose (a b : OperatorBase) : OperatorBase := ComposedOp [a; b].

Section Notebook.
Variable n_qubits : nat.
Variable p : nat.
Variable B : Backend.

Definition pauli_x (qubit : nat) (coeff : R) : R * Pauli :=
  PauliOp (mkPauli (np_zeros n_qubits) (np_eye_row n_qubits qubit)) coeff.

Definition Hm : Operator :=
  SummedOp (map (fun i => pauli_x i (-1)) (seq 0 n_qubits)).

Definition pauli_z (qubit : nat) (coeff : R) : R * Pauli :=
  PauliOp (mkPauli (np_eye_row n_qubits qubit) (np_zeros n_qubits)) coeff.

Definition product_pauli_z (q1 q2 : nat) (coeff : R) : R * Pauli :=
  PauliOp (Pauli_mul (mkPauli (np_eye_row n_qubits q1) (np_zeros n_qubits))
                     (mkPauli (np_eye_row n_qubits q2) (np_zeros n_qubits)))
          coeff.

(** [J = np.array([[0,1],[0,0]])]; the notebook reads it at indices below
    [n_qubits = 2] only. *)
Definition J (i j : nat) : R := nth j (nth i [[0; 1]; [0; 0]] []) 0.

Definition Hc : Operator :=
  SummedOp (map (fun ij => product_pauli_z (fst ij) (snd ij) (- J (fst ij) (snd ij)))
                (list_prod (seq 0 n_qubits) (seq 0 n_qubits))).

Definition init_state_vect : list R := map (fun _ => 1) (seq 0 (2 ^ n_qubits)).

Definition init_state : OperatorBase :=
  VectorStateFn init_state_vect (1 / sqrt (2 ^ n_qubits)).

(** [(angle * hamiltonian).exp_i()] *)
Definition evolve (hamiltonian : Operator) (angle : R) : OperatorBase :=
  EvolvedOp (Operator_scale angle hamiltonian).

Definition create_circuit (beta gamma : list R) : result OperatorBase :=
  result_bind
    (comprehension
       (fun i =>
          result_bind (getitem beta i) (fun b =>
          result_bind (getitem gamma i) (fun g =>
          inr (compose (evolve Hm b) (evolve Hc g)))))
       (seq 0 p))
    (fun steps => inr (ComposedOp (steps ++ [init_state]))).

(** What an expression denotes on the backend: a composition acts from
    right to left, [A @ B] being [A] after [B]. *)
Fixpoint eval_op (o : OperatorBase) (s : qstate B) : qstate B :=
  match o with
  | VectorStateFn v c => prepare B (map (fun a => RtoC (c * a)) v)
  | EvolvedOp H => exp_i B H s
  | ComposedOp l => fold_right (fun o' acc => eval_op o' acc) s l
  end.

Definition state_of (circuit : OperatorBase) : qstate B :=
  eval_op circuit (prepare B []).

Local Open Scope cell_scope.

Definition evaluate_hamiltonian (beta_gamma : list R) (hamiltonian : Operator) : M B R :=
  let n := (length beta_gamma / 2)%nat in
  circuit <- lift (create_circuit (firstn n beta_gamma) (skipn n beta_gamma)) ;;
  v <- call_oracle B hamiltonian (state_of circuit) ;;
  ret (Cre v).

(** [minimize(evaluate_hamiltonian, np.concatenate([beta, gamma]), (Hc), ...)] *)
Definition optimize (method : Strategy) (beta gamma : list R) : M B OptimizeResult :=
  minimize B method (fun bg => evaluate_hamiltonian bg Hc) (beta ++ gamma).

End Notebook.
End Lecture.

(** ** The coding assignment (legacy Qiskit and PyQuil branches) *)

Module Assignment.

(** What a circuit holds: the initialisation of the register in given
    amplitudes, and the sub-circuits of evolution.  A sub-circuit is kept
    as one block [EvolveI H], which stands for [e^{-iH}]; the primitive
    gates into which the SDK expands it are not modelled, so that a circuit
    here tells the state it prepares and the order of its blocks, not its
    gate count. *)
Inductive instr : Type :=
| InitI (amplitudes : vector)
| EvolveI (H : Operator).

Record QuantumCircuit : Type := mkQC { qregs : list nat; data : list instr }.

Inductive circuit : Type :=
| Qiskit (qc : QuantumCircuit)
| PyQuil (program : list instr).

(** [a + b] on Qiskit circuits: the registers of both, the instructions of
    [a] followed by those of [b]. *)
Definition qc_add (a b : QuantumCircuit) : QuantumCircuit :=
  mkQC (qregs a ++ filter (fun r => negb (existsb (Nat.eqb r) (qregs a))) (qregs b))
       (data a ++ data b).

(** [reduce(lambda x,y: x+y, l)] without an initial value. *)
Definition reduce_add (l : list QuantumCircuit) : result QuantumCircuit :=
  match l with
  | [] => inl TypeError
  | c :: l' => inr (fold_left qc_add l' c)
  end.

(** A [for] loop whose body may raise. *)
Fixpoint for_each {A S : Type} (body : S -> A -> result S) (l : list A) (s : S) : result S :=
  match l with
  | [] => inr s
  | a :: l' => result_bind (body s a) (for_each body l')
  end.

(** [pyquil.paulis.exponential_map(term)]: the program of
    [exp(-i alpha term)], kept as one block. *)
Definition exponential_map (term : R * Pauli) (alpha : R) : list instr :=
  [EvolveI (Operator_scale alpha [term])].

Definition ket0 (n : nat) : vector := Cone :: repeat Czero (2 ^ n - 1).

Section Notebook.
Variable n_qubits : nat.
Variable p : nat.
Variable B : Backend.
(** The learner's cells, absent from the repository. *)
Variable Hm Hc : Operator.
Variable circuit_init : circuit.

Definition pauli_x (qubit : nat) (coeff : R) : Operator :=
  [(coeff, mkPauli (np_zeros n_qubits) (np_eye_row n_qubits qubit))].

Definition pauli_z (qubit : nat) (coeff : R) : Operator :=
  [(coeff, mkPauli (np_eye_row n_qubits qubit) (np_zeros n_qubits))].

Definition product_pauli_z (q1 q2 : nat) (coeff : R) : Operator :=
  [(coeff, Pauli_mul (mkPauli (np_eye_row n_qubits q1) (np_zeros n_qubits))
                     (mkPauli (np_eye_row n_qubits q2) (np_zeros n_qubits)))].

(** [hamiltonian.evolve(None, angle, 'circuit', 1, quantum_registers=...)]:
    the sub-circuit of the evolution, kept as one block on the register. *)
Definition evolve (hamiltonian : Operator) (angle : R) (quantum_registers : nat)
  : QuantumCircuit :=
  mkQC [quantum_registers] [EvolveI (Operator_scale angle hamiltonian)].

Definition create_circuit (circuit_init : circuit) (beta gamma : list R) : result circuit :=
  match circuit_init with
  | Qiskit qc =>
      match qregs qc with
      | [] => inl IndexError
      | qr :: _ =>
          result_bind
            (comprehension
               (fun i =>
                  result_bind (getitem beta i) (fun b =>
                  result_bind (getitem gamma i) (fun g =>
                  inr (qc_add (evolve Hc b qr) (evolve Hm g qr)))))
               (seq 0 p))
            (fun steps =>
               result_bind (reduce_add steps) (fun circuit_evolv =>
               inr (Qiskit (qc_add qc circuit_evolv))))
      end
  | PyQuil prog =>
      let exp_Hm := map exponential_map Hm in
      let exp_Hc := map exponential_map Hc in
      result_bind
        (for_each
           (fun circuit i =>
              result_bind
                (for_each
                   (fun c term_exp_Hm =>
                      result_bind (getitem beta i) (fun b => inr (c ++ term_exp_Hm (- b))))
                   exp_Hm circuit)
                (for_each
                   (fun c term_exp_Hc =>
                      result_bind (getitem gamma i) (fun g => inr (c ++ term_exp_Hc (- g))))
                   exp_Hc))
           (seq 0 p) ([] ++ prog))
        (fun circuit => inr (PyQuil circuit))
  end.

(** Running a circuit on the backend, instruction after instruction, from
    the register in [|0...0>]. *)
Definition run_instr (s : qstate B) (i : instr) : qstate B :=
  match i with
  | InitI v => prepare B v
  | EvolveI H => exp_i B H s
  end.

Definition run (l : list instr) : qstate B :=
  fold_left run_instr l (prepare B (ket0 n_qubits)).

Definition state_of (c : circuit) : qstate B :=
  match c with
  | Qiskit qc => run (data qc)
  | PyQuil prog => run prog
  end.

Local Open Scope cell_scope.

Definition evaluate_circuit (beta_gamma : list R) : M B R :=
  let n := (length beta_gamma / 2)%nat in
  circuit <- lift (create_circuit circuit_init (firstn n beta_gamma) (skipn n beta_gamma)) ;;
  match circuit with
  | Qiskit qc =>
      v <- call_oracle B Hc (state_of (Qiskit qc)) ;;
      ret (Cre v)
  | PyQuil prog =>
      v <- call_oracle B Hc (state_of (PyQuil prog)) ;;
      ret (Cre v)
  end.

(** [minimize(evaluate_circuit, np.concatenate([beta, gamma]), method=...)] *)
Definition optimize (method : Strategy) (beta gamma : list R) : M B OptimizeResult :=
  minimize B method evaluate_circuit (beta ++ gamma).

End Notebook.

(** Modelled from the spec: the learner's [Hm] of exercise 1, the sum of the
    single-qubit X operators. *)
Definition Hm_solution (n_qubits : nat) : Operator :=
  fold_left Operator_add (map (fun i => pauli_x n_qubits i 1) (seq 0 n_qubits)) [].

(** Modelled from the spec: the learner's [Hc] of exercise 2,
    [-Z0 Z1 - 0.5 Z0]. *)
Definition Hc_solution (n_qubits : nat) : Operator :=
  Operator_add (product_pauli_z n_qubits 0 1 (-1)) (pauli_z n_qubits 0 (-0.5)).

(** Modelled from the spec: the amplitudes of the uniform superposition,
    which the grading cell of exercise 3 expects of [circuit_init]. *)
Definition uniform (n_qubits : nat) : vector :=
  repeat (RtoC (1 / sqrt (2 ^ n_qubits))) (2 ^ n_qubits).

(** The SDK the learner works with. *)
Inductive sdk : Type := UseQiskit | UsePyQuil.

(** Modelled from the spec: the learner's [circuit_init] of exercise 3, a
    circuit of either SDK that prepares the uniform superposition. *)
Definition circuit_init_solution (k : sdk) (n_qubits : nat) : circuit :=
  match k with
  | UseQiskit => Qiskit (mkQC [0%nat] [InitI (uniform n_qubits)])
  | UsePyQuil => PyQuil [InitI (uniform n_qubits)]
  end.

End Assignment.

(** ** Vocabulary of the statements *)

Section Preparation.
Variable B : Backend.

(** Evolution under the observable [H] for the duration [t]. *)
Definition evolution (H : Operator) (t : R) (s : qstate B) : qstate B :=
  exp_i B (Operator_scale t H) s.

(** The same, one term of [H] after the other. *)
Definition evolution_termwise (H : Operator) (t : R) (s : qstate B) : qstate B :=
  fold_left (fun s' term => exp_i B (Operator_scale t [term]) s') H s.

(** The first step of the list acts first. *)
Definition apply_in_order (steps : list (qstate B -> qstate B)) (s : qstate B) : qstate B :=
  fold_left (fun s' step => step s') steps s.

(** Following the spec's words: for [i = 0 .. p-1] in turn, the mixing
    observable for [beta[i]], then the cost observable for [gamma[i]]. *)
Definition spec_preparation (Hm Hc : Operator) (beta gamma : list R) (s0 : qstate B)
  : qstate B :=
  apply_in_order
    (flat_map (fun bg => [evolution Hm (fst bg); evolution Hc (snd bg)])
              (combine beta gamma))
    s0.

(** What the lecture notebook prepares: the last pair acts first, and in
    each pair the cost observable for [gamma[i]] before the mixing
    observable for [beta[i]]. *)
Definition lecture_preparation (Hm Hc : Operator) (beta gamma : list R) (s0 : qstate B)
  : qstate B :=
  apply_in_order
    (flat_map (fun bg => [evolution Hc (snd bg); evolution Hm (fst bg)])
              (rev (combine beta gamma)))
    s0.

(** What the Qiskit branch of the assignment prepares: the pairs in
    order, the cost observable for [beta[i]] before the mixing observable
    for [gamma[i]]. *)
Definition qiskit_preparation (Hm Hc : Operator) (beta gamma : list R) (s0 : qstate B)
  : qstate B :=
  apply_in_order
    (flat_map (fun bg => [evolution Hc (fst bg); evolution Hm (snd bg)])
              (combine beta gamma))
    s0.

(** What the PyQuil branch prepares: the pairs in order, the terms of the
    mixing observable for [-beta[i]] before those of the cost observable
    for [-gamma[i]]. *)
Definition pyquil_preparation (Hm Hc : Operator) (beta gamma : list R) (s0 : qstate B)
  : qstate B :=
  apply_in_order
    (flat_map (fun bg => [evolution_termwise Hm (- fst bg);
                          evolution_termwise Hc (- snd bg)])
              (combine beta gamma))
    s0.

(** One backend job on the state [s], of which the real part is returned. *)
Definition measured (H : Operator) (s : qstate B) (w : world B) : result R * world B :=
  let (v, r') := expectation B H s (rng w) in
  (inr (Cre v), mkWorld r' (S (oracle_calls w))).

(** Evolving for no time changes nothing. *)
Definition zero_duration_identity : Prop :=
  forall H s, exp_i B (Operator_scale 0 H) s = s.

End Preparation.

(** The state the assignment's [circuit_init] leaves the register in. *)
Definition initial_state (n_qubits : nat) (B : Backend) (circuit_init : Assignment.circuit)
  : qstate B :=
  Assignment.state_of n_qubits B circuit_init.

(** The assignment's setting is in order when the mixing observable has a
    term, the depth is positive and a Qiskit circuit has a register. *)
Definition well_formed_setup (p : nat) (Hm : Operator) (circuit_init : Assignment.circuit)
  : Prop :=
  Hm <> [] /\ (0 < p)%nat /\
  match circuit_init with
  | Assignment.Qiskit qc => Assignment.qregs qc <> []
  | Assignment.PyQuil _ => True
  end.

(** A backend whose values carry a spurious imaginary unit, as a
    non-Hermitian observable would give. *)
Definition faulty_backend : Backend :=
  mkBackend nat vector (fun v => v) exp_i_sv
            (fun H psi seed => (Cadd (expectation_sv H psi) Cimag, seed)).

(** Exchanging the two [(beta_i, gamma_i)] pairs of a depth-2 vector. *)
Definition swap_pairs (beta_gamma : list R) : list R :=
  match beta_gamma with
  | [b0; b1; g0; g1] => [b1; b0; g1; g0]
  | _ => beta_gamma
  end.

Section Run.
Variable B : Backend.
Variable S_ : Strategy.
Variable objective : list R -> M B R.

(** The points the driver tries on its run from the memory [st] and the
    moment [w], each with the value found there, in the order of the run. *)
Fixpoint history (fuel : nat) (st : memory S_) (w : world B) : list (list R * R) :=
  if converged S_ st then []
  else
    match fuel with
    | O => []
    | S fuel' =>
        let c := candidate S_ st in
        match objective c w with
        | (inr v, w') => (c, v) :: history fuel' (observe S_ st c v) w'
        | (inl _, _) => []
        end
    end.

(** The run from the memory [st] spends its whole budget: the convergence
    test fails each time the run makes it, the last time with the budget
    used up, and the objective returns a value at each point the run tries.
    Nothing is asked of the strategy on other runs. *)
Fixpoint budget_spent (fuel : nat) (st : memory S_) (w : world B) : bool :=
  negb (converged S_ st) &&
  match fuel with
  | O => true
  | S fuel' =>
      let c := candidate S_ st in
      match objective c w with
      | (inr v, w') => budget_spent fuel' (observe S_ st c v) w'
      | (inl _, _) => false
      end
  end.

(** All the evaluations of the call [minimize x0] at the moment [w], the
    start point first. *)
Definition evaluations (x0 : list R) (w : world B) : list (list R * R) :=
  match objective x0 w with
  | (inr f0, w1) => (x0, f0) :: history (maxiter S_) (start S_ x0 f0) w1
  | (inl _, _) => []
  end.

(** The optimiser fails to converge within its budget on the run from
    [x0] at the moment [w]. *)
Definition fails_to_converge (x0 : list R) (w : world B) : bool :=
  match objective x0 w with
  | (inr f0, w1) => budget_spent (maxiter S_) (start S_ x0 f0) w1
  | (inl _, _) => false
  end.
End Run.

(** A search strategy that never declares convergence: it tries the point
    [x0] again and again, up to its cap. *)
Definition stubborn (x0 : list R) (cap : nat) : Strategy :=
  mkStrategy unit (fun _ _ => tt) (fun _ => x0) (fun _ _ _ => tt) (fun _ => false) cap.

(** A search strategy with a stopping rule on the values: it tries the
    point [x0] again and again, and declares convergence once the last
    value seen is below [tau]. *)
Definition threshold (x0 : list R) (tau : R) (cap : nat) : Strategy :=
  mkStrategy R (fun _ f0 => f0) (fun _ => x0) (fun _ _ v => v)
             (fun st => if Rlt_dec st tau then true else false) cap.

(** Two starting moments of the two backends. *)
Definition w0 : world statevector_simulator := @mkWorld statevector_simulator 0%nat 0%nat.
Definition wf : world faulty_backend := @mkWorld faulty_backend 0%nat 0%nat.

(** Two-qubit Pauli strings and states. *)
Definition II : Pauli := mkPauli [false; false] [false; false].
Definition X0 : Pauli := mkPauli [false; false] [true; false].
Definition X1 : Pauli := mkPauli [false; false] [false; true].
Definition Z0 : Pauli := mkPauli [true; false] [false; false].
Definition Z0Z1 : Pauli := mkPauli [true; true] [false; false].

(** The amplitude of the uniform superposition of two qubits. *)
Definition half : C := RtoC (1 / 2).

(** One amplitude after a Pauli rotation: [cos(theta) u - i sin(theta) v]. *)
Definition mix (theta : R) (u v : C) : C :=
  Cadd (Cscale (cos theta) u) (Cmul (0, - sin theta) v).

(** Four amplitudes of total weight 1. *)
Definition unit4 (psi : vector) : Prop :=
  exists a b c d,
    psi = [a; b; c; d] /\ Cnorm2 a + Cnorm2 b + Cnorm2 c + Cnorm2 d = 1.

(** The Pauli strings of the two-qubit Hamiltonians of the notebooks. *)
Definition two_qubit_pauli (P : Pauli) : Prop :=
  P = II \/ P = X0 \/ P = X1 \/ P = Z0 \/ P = Z0Z1.

Definition two_qubit_operator (H : Operator) : Prop :=
  Forall (fun t => two_qubit_pauli (snd t)) H.

(** The building blocks of the three circuits. *)
Definition lecture_step (n_qubits : nat) (bg : R * R) : Lecture.OperatorBase :=
  Lecture.compose (Lecture.evolve (Lecture.Hm n_qubits) (fst bg))
                  (Lecture.evolve (Lecture.Hc n_qubits) (snd bg)).

Definition qiskit_gates (Hm Hc : Operator) (bg : R * R) : list Assignment.instr :=
  [Assignment.EvolveI (Operator_scale (fst bg) Hc);
   Assignment.EvolveI (Operator_scale (snd bg) Hm)].

Definition pyquil_gates (Hm Hc : Operator) (bg : R * R) : list Assignment.instr :=
  flat_map (fun term => Assignment.exponential_map term (- fst bg)) Hm ++
  flat_map (fun term => Assignment.exponential_map term (- snd bg)) Hc.

(** The preparation the assignment's objective measures, by SDK. *)
Definition assignment_preparation (n_qubits : nat) (B : Backend) (Hm Hc : Operator)
           (circuit_init : Assignment.circuit) (beta gamma : list R) : qstate B :=
  match circuit_init with
  | Assignment.Qiskit _ =>
      qiskit_preparation B Hm Hc beta gamma (initial_state n_qubits B circuit_init)
  | Assignment.PyQuil _ =>
      pyquil_preparation B Hm Hc beta gamma (initial_state n_qubits B circuit_init)
  end.

(** ** Further vocabulary: symmetries of the two-qubit landscape *)

Definition Z1 : Pauli := mkPauli [false; true] [false; false].

(** Four amplitudes of total weight 1 that do not change when both qubits
    are flipped. *)
Definition flip_symmetric (psi : vector) : Prop :=
  exists a b, psi = [a; b; b; a] /\ 2 * (Cnorm2 a + Cnorm2 b) = 1.

(** The weights of the terms are integers. *)
Definition integer_weights (H : Operator) : Prop :=
  Forall (fun t => exists m : Z, fst t = IZR m) H.

(** Two parameter vectors that differ by whole turns, entry by entry. *)
Definition whole_turns (bg bg' : list R) : Prop :=
  Forall2 (fun x y => exists k : Z, y = x + 2 * IZR k * PI) bg bg'.

(** The squared norm of a state vector. *)
Definition norm2 (psi : vector) : R := fold_right Rplus 0 (map Cnorm2 psi).

(** ** Further notebooks

    [03_Evolution_in_Closed_and_Open_Systems] (module [Evolution]): the
    mixed state of a given visibility and the thermal distribution.  The
    clustering notebook (module [Clustering]): the matrix of pairwise
    distances that serves as the weights of the max-cut problem. *)

Definition entry (m : matrix) (i j : nat) : C := nth j (nth i m []) Czero.

(** [np.trace(m)] *)
Definition trace (m : matrix) : C :=
  Csum (map (fun i => entry m i i) (seq 0 (length m))).

(** A range of exponents, whole arrays of which [np.exp] maps to floats
    that are positive, finite, and whose quotients by their sum are
    positive still: [e^-300], [e^300] and [e^-600] are all far from the
    bounds [e^-745] and [e^709] of the doubles. *)
Definition float_exp_range (t : R) : Prop := Rabs t <= 300.

Module Evolution.

(** numpy refuses to add arrays whose shapes cannot be broadcast together. *)
Inductive np_exn : Type := ValueError.

(** [np.eye(n)] *)
Definition np_eye (n : nat) : matrix :=
  map (fun i => map (fun j => if Nat.eqb i j then Cone else Czero) (seq 0 n)) (seq 0 n).

(** [a @ a.T.conj()] for a column vector [a]. *)
Definition outer (a : vector) : matrix :=
  map (fun x => map (fun y => Cmul x (Cconj y)) a) a.

(** What [+] does to a square matrix that faces a 4x4 one: a 1x1 matrix is
    stretched, a 4x4 matrix is taken as it is, any other shape is refused. *)
Definition broadcast4 (m : matrix) : np_exn + matrix :=
  match m with
  | [[a]] => inr (repeat (repeat a 4) 4)
  | [_; _; _; _] => inr m
  | _ => inl ValueError
  end.

Definition mixed_state (pure_state : vector) (visibility : R) : np_exn + matrix :=
  let density_matrix := outer pure_state in
  let maximally_mixed_state := mat_scale (RtoC (/ 2 ^ 2)) (np_eye 4) in
  match broadcast4 (mat_scale (RtoC visibility) density_matrix) with
  | inl e => inl e
  | inr m => inr (mat_add m (mat_scale (RtoC (1 - visibility)) maximally_mixed_state))
  end.

(** The body of the loop over the temperatures:
    [probabilities = np.exp(-energies/T); Z = probabilities.sum();
     probabilities /= Z].  [np.exp] is read as the real exponential, which
    the floats follow, up to rounding, only while [energies/T] stays in
    [float_exp_range]: beyond it the cell yields [0.0], [inf] or [nan]. *)
Definition probabilities (energies : list R) (T : R) : list R :=
  let probabilities := map (fun e => exp (- e / T)) energies in
  let Z := fold_right Rplus 0 probabilities in
  map (fun q => q / Z) probabilities.

End Evolution.

(** A matrix is Hermitian on its first [n] rows and columns. *)
Definition hermitian (n : nat) (m : matrix) : Prop :=
  forall i j, (i < n)%nat -> (j < n)%nat -> entry m i j = Cconj (entry m j i).

(** [<phi| m |phi>] *)
Definition quadratic_form (m : matrix) (phi : vector) : C := inner phi (mat_vec m phi).

Module Clustering.

(** A row of [data]: a point of three coordinates. *)
Definition point : Type := (R * R * R)%type.

(** [np.linalg.norm(a - b)] *)
Definition norm_diff (a b : point) : R :=
  let '(a1, a2, a3) := a in
  let '(b1, b2, b3) := b in
  sqrt ((a1 - b1) * (a1 - b1) + (a2 - b2) * (a2 - b2) + (a3 - b3) * (a3 - b3)).

(** [data[i]] for a non-negative index. *)
Definition row (data : list point) (i : nat) : result point :=
  match nth_error data i with
  | Some v => inr v
  | None => inl IndexError
  end.

(** [l[j] = v] on a list; the notebook writes within the bounds only. *)
Fixpoint set_nth {A : Type} (l : list A) (j : nat) (v : A) : list A :=
  match l, j with
  | [], _ => []
  | _ :: l', O => v :: l'
  | a :: l', S j' => a :: set_nth l' j' v
  end.

(** [w[i, j] = v] *)
Definition set_entry (w : list (list R)) (i j : nat) (v : R) : list (list R) :=
  set_nth w i (set_nth (nth i w []) j v).

(** [w = np.zeros((n, n))] followed by the loop over all pairs [i, j] of
    [itertools.product] on two copies of [range(n)], of body
    [w[i, j] = np.linalg.norm(data[i]-data[j])]. *)
Definition distances (n_instances : nat) (data : list point) : result (list (list R)) :=
  Assignment.for_each
    (fun w ij =>
       result_bind (row data (fst ij)) (fun a =>
       result_bind (row data (snd ij)) (fun b =>
       inr (set_entry w (fst ij) (snd ij) (norm_diff a b)))))
    (list_prod (seq 0 n_instances) (seq 0 n_instances))
    (repeat (repeat 0 n_instances) n_instances).

(** [w[i, j]] read back. *)
Definition weight (w : list (list R)) (i j : nat) : R := nth j (nth i w []) 0.

(** [data = np.concatenate((class_1, class_2))], each class holding
    [n_instances // 2] rows. *)
Definition concatenate (class_1 class_2 : list point) : list point := class_1 ++ class_2.

End Clustering.

(** An [n] by [n] array. *)
Definition square (n : nat) (w : list (list R)) : Prop :=
  length w = n /\ forall i, (i < n)%nat -> length (nth i w []) = n.

(** * Properties *)

(** ** The circuits on small inputs *)

Example lecture_circuit_depth1 (b g : R) :
  Lecture.create_circuit 2 1 [b] [g] =
  inr (Lecture.ComposedOp
         [Lecture.ComposedOp
            [Lecture.EvolvedOp (Operator_scale b (Lecture.Hm 2));
             Lecture.EvolvedOp (Operator_scale g (Lecture.Hc 2))];
          Lecture.init_state 2]).
Proof. reflexivity. Qed.

Example lecture_circuit_short (b g : R) :
  Lecture.create_circuit 2 2 [b] [g] = inl IndexError.
Proof. reflexivity. Qed.

Example qiskit_circuit_depth1 (Hm Hc : Operator) (b g : R) :
  Assignment.create_circuit 1 Hm Hc
    (Assignment.Qiskit (Assignment.mkQC [0%nat] [])) [b] [g] =
  inr (Assignment.Qiskit
         (Assignment.mkQC [0%nat]
            [Assignment.EvolveI (Operator_scale b Hc);
             Assignment.EvolveI (Operator_scale g Hm)])).
Proof. reflexivity. Qed.

Example qiskit_circuit_depth0 (Hm Hc : Operator) :
  Assignment.create_circuit 0 Hm Hc
    (Assignment.Qiskit (Assignment.mkQC [0%nat] [])) [] [] = inl TypeError.
Proof. reflexivity. Qed.

Example pyquil_circuit_depth1 (tm tc : R * Pauli) (b g : R) :
  Assignment.create_circuit 1 [tm] [tc] (Assignment.PyQuil []) [b] [g] =
  inr (Assignment.PyQuil
         [Assignment.EvolveI (Operator_scale (- b) [tm]);
          Assignment.EvolveI (Operator_scale (- g) [tc])]).
Proof. reflexivity. Qed.

Example pyquil_circuit_no_terms :
  Assignment.create_circuit 1 [] [] (Assignment.PyQuil []) [] [] =
  inr (Assignment.PyQuil []).
Proof. reflexivity. Qed.

(** ** Indexing and comprehensions *)

Lemma getitem_cons (a : R) (l : list R) (i : nat) : getitem (a :: l) (S i) = getitem l i.
Proof. reflexivity. Qed.

Lemma comprehension_shift {A : Type} (f : nat -> result A) (l : list nat) :
  comprehension f (map S l) = comprehension (fun i => f (S i)) l.
Proof.
  induction l as [|a l IH]; simpl; [reflexivity|].
  now rewrite IH.
Qed.

Lemma comprehension_ext {A X : Type} (f g : X -> result A) (l : list X) :
  (forall a, f a = g a) -> comprehension f l = comprehension g l.
Proof.
  intros E; induction l as [|a l IH]; simpl; [reflexivity|].
  now rewrite E, IH.
Qed.

Section Steps.
Context {A : Type} (f : R -> R -> A).

Let body (beta gamma : list R) (i : nat) : result A :=
  result_bind (getitem beta i) (fun b =>
  result_bind (getitem gamma i) (fun g => inr (f b g))).

Lemma steps_ok (p : nat) : forall beta gamma,
  (p <= length beta)%nat -> (p <= length gamma)%nat ->
  comprehension
    (fun i => result_bind (getitem beta i) (fun b =>
              result_bind (getitem gamma i) (fun g => inr (f b g))))
    (seq 0 p) =
  inr (map (fun bg => f (fst bg) (snd bg)) (combine (firstn p beta) (firstn p gamma))).
Proof.
  induction p as [|p IH]; intros beta gamma Hb Hg; [reflexivity|].
  destruct beta as [|b beta]; [simpl in Hb; lia|].
  destruct gamma as [|g gamma]; [simpl in Hg; lia|].
  simpl in Hb, Hg.
  cbn [seq]. rewrite <- seq_shift. cbn [comprehension].
  rewrite comprehension_shift.
  rewrite (comprehension_ext _ (body beta gamma)) by reflexivity. unfold body.
  rewrite IH by lia. reflexivity.
Qed.

Lemma steps_fail (p : nat) : forall beta gamma,
  (length beta < p)%nat \/ (length gamma < p)%nat ->
  comprehension
    (fun i => result_bind (getitem beta i) (fun b =>
              result_bind (getitem gamma i) (fun g => inr (f b g))))
    (seq 0 p) = inl IndexError.
Proof.
  induction p as [|p IH]; intros beta gamma Hlt; [lia|].
  cbn [seq]. rewrite <- seq_shift. cbn [comprehension].
  destruct beta as [|b beta]; [reflexivity|].
  destruct gamma as [|g gamma]; [reflexivity|].
  simpl in Hlt.
  rewrite comprehension_shift.
  rewrite (comprehension_ext _ (body beta gamma)) by reflexivity. unfold body.
  rewrite IH by lia. reflexivity.
Qed.
End Steps.

(** ** Splitting the parameter vector *)

Lemma half_firstn (bg : list R) :
  length (firstn (length bg / 2) bg) = (length bg / 2)%nat.
Proof.
  rewrite length_firstn. apply Nat.min_l.
  apply Nat.Div0.div_le_upper_bound. lia.
Qed.

Lemma half_skipn (bg : list R) :
  (length bg / 2 <= length (skipn (length bg / 2) bg))%nat.
Proof.
  rewrite length_skipn.
  pose proof (Nat.Div0.mul_div_le (length bg) 2). lia.
Qed.

Lemma half_concat (beta gamma : list R) :
  length beta = length gamma ->
  (length (beta ++ gamma) / 2)%nat = length beta /\
  firstn (length (beta ++ gamma) / 2) (beta ++ gamma) = beta /\
  skipn (length (beta ++ gamma) / 2) (beta ++ gamma) = gamma.
Proof.
  intros E.
  assert (Hh : (length (beta ++ gamma) / 2)%nat = length beta).
  { rewrite length_app, <- E.
    replace (length beta + length beta)%nat with (length beta * 2)%nat by lia.
    apply Nat.div_mul. discriminate. }
  rewrite Hh. repeat split.
  - rewrite firstn_app, firstn_all, Nat.sub_diag. simpl. apply app_nil_r.
  - rewrite skipn_app, skipn_all, Nat.sub_diag. reflexivity.
Qed.

(** ** The lecture notebook: what [create_circuit] builds *)

Section LectureFacts.
Variables (n_qubits p : nat) (B : Backend).

Let Hm := Lecture.Hm n_qubits.
Let Hc := Lecture.Hc n_qubits.

Lemma lecture_create_circuit_ok (beta gamma : list R) :
  (p <= length beta)%nat -> (p <= length gamma)%nat ->
  Lecture.create_circuit n_qubits p beta gamma =
  inr (Lecture.ComposedOp
         (map (lecture_step n_qubits) (combine (firstn p beta) (firstn p gamma))
          ++ [Lecture.init_state n_qubits])).
Proof.
  intros Hb Hg. unfold Lecture.create_circuit.
  rewrite (steps_ok (fun b g => lecture_step n_qubits (b, g))) by assumption.
  reflexivity.
Qed.

Lemma lecture_create_circuit_fail (beta gamma : list R) :
  (length beta < p)%nat \/ (length gamma < p)%nat ->
  Lecture.create_circuit n_qubits p beta gamma = inl IndexError.
Proof.
  intros Hlt. unfold Lecture.create_circuit.
  rewrite (steps_fail (fun b g => lecture_step n_qubits (b, g))) by assumption.
  reflexivity.
Qed.

Lemma lecture_state_of_steps (l : list (R * R)) :
  Lecture.state_of B (Lecture.ComposedOp (map (lecture_step n_qubits) l ++ [Lecture.init_state n_qubits])) =
  fold_right (fun bg s => exp_i B (Operator_scale (fst bg) Hm)
                            (exp_i B (Operator_scale (snd bg) Hc) s))
             (Lecture.state_of B (Lecture.init_state n_qubits)) l.
Proof.
  unfold Lecture.state_of. cbn [Lecture.eval_op].
  rewrite fold_right_app. cbn [fold_right].
  induction l as [|bg l IH]; [reflexivity|].
  cbn [map fold_right]. rewrite IH. reflexivity.
Qed.
End LectureFacts.

(** ** The assignment notebook: what [create_circuit] builds *)

Lemma for_each_shift {S_ : Type} (body : S_ -> nat -> result S_) (l : list nat) (s : S_) :
  Assignment.for_each body (map S l) s = Assignment.for_each (fun c i => body c (S i)) l s.
Proof.
  revert s; induction l as [|a l IH]; intros s; simpl; [reflexivity|].
  destruct (body s (S a)); simpl; [reflexivity|apply IH].
Qed.

Lemma for_each_ext {X S_ : Type} (f g : S_ -> X -> result S_) (l : list X) (s : S_) :
  (forall c a, f c a = g c a) -> Assignment.for_each f l s = Assignment.for_each g l s.
Proof.
  intros E; revert s; induction l as [|a l IH]; intros s; simpl; [reflexivity|].
  rewrite E. destruct (g s a); simpl; [reflexivity|apply IH].
Qed.

Lemma data_fold_qc_add (l : list Assignment.QuantumCircuit) (c : Assignment.QuantumCircuit) :
  Assignment.data (fold_left Assignment.qc_add l c) =
  Assignment.data c ++ flat_map Assignment.data l.
Proof.
  revert c; induction l as [|a l IH]; intros c; simpl.
  - now rewrite app_nil_r.
  - rewrite IH. simpl. now rewrite app_assoc.
Qed.

Section AssignmentFacts.
Variables (n_qubits p : nat) (B : Backend) (Hm Hc : Operator).


Lemma qiskit_create_circuit_ok (qc : Assignment.QuantumCircuit) (beta gamma : list R) :
  Assignment.qregs qc <> [] -> (0 < p)%nat ->
  (p <= length beta)%nat -> (p <= length gamma)%nat ->
  exists regs,
    Assignment.create_circuit p Hm Hc (Assignment.Qiskit qc) beta gamma =
    inr (Assignment.Qiskit
           (Assignment.mkQC regs
              (Assignment.data qc ++
               flat_map (qiskit_gates Hm Hc) (combine (firstn p beta) (firstn p gamma))))).
Proof.
  intros Hq Hp Hb Hg. unfold Assignment.create_circuit.
  destruct (Assignment.qregs qc) as [|qr regs] eqn:Eq; [congruence|].
  rewrite (steps_ok (fun b g => Assignment.qc_add (Assignment.evolve Hc b qr)
                                                  (Assignment.evolve Hm g qr)))
    by assumption.
  cbn [result_bind].
  destruct (combine (firstn p beta) (firstn p gamma)) as [|bg l] eqn:El.
  - apply (f_equal (@length _)) in El.
    rewrite length_combine, !length_firstn in El. simpl in El. lia.
  - cbn [map Assignment.reduce_add result_bind].
    eexists. do 2 f_equal. unfold Assignment.qc_add at 1. f_equal.
    cbn [Assignment.data]. f_equal.
    rewrite data_fold_qc_add. cbn [flat_map]. f_equal.
    clear. induction l as [|a l IH]; simpl; [reflexivity|]. now rewrite IH.
Qed.

Lemma qiskit_create_circuit_fail (qc : Assignment.QuantumCircuit) (beta gamma : list R) :
  (length beta < p)%nat \/ (length gamma < p)%nat ->
  Assignment.create_circuit p Hm Hc (Assignment.Qiskit qc) beta gamma = inl IndexError.
Proof.
  intros Hlt. unfold Assignment.create_circuit.
  destruct (Assignment.qregs qc) as [|qr regs]; [reflexivity|].
  rewrite (steps_fail (fun b g => Assignment.qc_add (Assignment.evolve Hc b qr)
                                                    (Assignment.evolve Hm g qr)))
    by assumption.
  reflexivity.
Qed.

Lemma pyquil_inner (H : Operator) (l : list R) (i : nat) (c : list Assignment.instr) :
  Assignment.for_each
    (fun c' term_exp => result_bind (getitem l i) (fun a => inr (c' ++ term_exp (- a))))
    (map Assignment.exponential_map H) c =
  match getitem l i with
  | inr a => inr (c ++ flat_map (fun term => Assignment.exponential_map term (- a)) H)
  | inl e => match H with [] => inr c | _ :: _ => inl e end
  end.
Proof.
  revert c; induction H as [|t H IH]; intros c.
  - simpl. destruct (getitem l i); [reflexivity|now rewrite app_nil_r].
  - cbn [map Assignment.for_each]. destruct (getitem l i) as [e|a] eqn:E; [reflexivity|].
    cbn [result_bind]. rewrite IH. cbn [flat_map]. now rewrite app_assoc.
Qed.

Let pyquil_body (beta gamma : list R) (circuit : list Assignment.instr) (i : nat) :=
  result_bind
    (Assignment.for_each
       (fun c term_exp_Hm =>
          result_bind (getitem beta i) (fun b => inr (c ++ term_exp_Hm (- b))))
       (map Assignment.exponential_map Hm) circuit)
    (Assignment.for_each
       (fun c term_exp_Hc =>
          result_bind (getitem gamma i) (fun g => inr (c ++ term_exp_Hc (- g))))
       (map Assignment.exponential_map Hc)).

Lemma pyquil_loop_ok : forall beta gamma c,
  (p <= length beta)%nat -> (p <= length gamma)%nat ->
  Assignment.for_each (pyquil_body beta gamma) (seq 0 p) c =
  inr (c ++ flat_map (pyquil_gates Hm Hc) (combine (firstn p beta) (firstn p gamma))).
Proof.
  induction p as [|q IH]; intros beta gamma c Hb Hg.
  - simpl. now rewrite app_nil_r.
  - destruct beta as [|b beta]; [simpl in Hb; lia|].
    destruct gamma as [|g gamma]; [simpl in Hg; lia|].
    simpl in Hb, Hg. cbn [seq]. rewrite <- seq_shift. cbn [Assignment.for_each].
    unfold pyquil_body at 1. rewrite pyquil_inner.
    change (getitem (b :: beta) 0) with (@inr exn R b). cbn [result_bind].
    rewrite pyquil_inner.
    change (getitem (g :: gamma) 0) with (@inr exn R g). cbn iota. cbn [result_bind].
    rewrite for_each_shift.
    rewrite (for_each_ext _ (pyquil_body beta gamma)) by reflexivity.
    rewrite IH by lia. cbn [firstn combine flat_map].
    unfold pyquil_gates at 2. cbn [fst snd]. now rewrite !app_assoc.
Qed.

Lemma pyquil_loop_fail : forall beta gamma c,
  Hm <> [] -> (length beta < p)%nat -> (length beta <= length gamma)%nat ->
  Assignment.for_each (pyquil_body beta gamma) (seq 0 p) c = inl IndexError.
Proof.
  induction p as [|q IH]; intros beta gamma c Hne Hb Hg; [lia|].
  cbn [seq]. rewrite <- seq_shift. cbn [Assignment.for_each].
  unfold pyquil_body at 1. rewrite pyquil_inner.
  destruct beta as [|b beta].
  - cbn [getitem nth_error]. destruct Hm; [congruence|reflexivity].
  - destruct gamma as [|g gamma]; [simpl in Hg; lia|].
    simpl in Hb, Hg.
    change (getitem (b :: beta) 0) with (@inr exn R b). cbn [result_bind].
    rewrite pyquil_inner.
    change (getitem (g :: gamma) 0) with (@inr exn R g). cbn iota. cbn [result_bind].
    rewrite for_each_shift.
    rewrite (for_each_ext _ (pyquil_body beta gamma)) by reflexivity.
    apply IH; [assumption|lia|lia].
Qed.

Lemma pyquil_create_circuit_ok (prog : list Assignment.instr) (beta gamma : list R) :
  (p <= length beta)%nat -> (p <= length gamma)%nat ->
  Assignment.create_circuit p Hm Hc (Assignment.PyQuil prog) beta gamma =
  inr (Assignment.PyQuil
         (prog ++ flat_map (pyquil_gates Hm Hc) (combine (firstn p beta) (firstn p gamma)))).
Proof.
  intros Hb Hg. unfold Assignment.create_circuit.
  change (Assignment.for_each _ (seq 0 p) ([] ++ prog))
    with (Assignment.for_each (pyquil_body beta gamma) (seq 0 p) prog).
  now rewrite pyquil_loop_ok.
Qed.

Lemma pyquil_create_circuit_fail (prog : list Assignment.instr) (beta gamma : list R) :
  Hm <> [] -> (length beta < p)%nat -> (length beta <= length gamma)%nat ->
  Assignment.create_circuit p Hm Hc (Assignment.PyQuil prog) beta gamma = inl IndexError.
Proof.
  intros Hne Hb Hg. unfold Assignment.create_circuit.
  change (Assignment.for_each _ (seq 0 p) ([] ++ prog))
    with (Assignment.for_each (pyquil_body beta gamma) (seq 0 p) prog).
  now rewrite pyquil_loop_fail.
Qed.

End AssignmentFacts.

(** ** What the objective functions return *)

Section Objectives.
Variables (n_qubits p : nat) (B : Backend).

Lemma apply_in_order_app (l1 l2 : list (qstate B -> qstate B)) (s : qstate B) :
  apply_in_order B (l1 ++ l2) s = apply_in_order B l2 (apply_in_order B l1 s).
Proof. unfold apply_in_order. apply fold_left_app. Qed.

Lemma lecture_fold (Hm Hc : Operator) (l : list (R * R)) (s0 : qstate B) :
  fold_right (fun bg s => exp_i B (Operator_scale (fst bg) Hm)
                            (exp_i B (Operator_scale (snd bg) Hc) s)) s0 l =
  apply_in_order B
    (flat_map (fun bg => [evolution B Hc (snd bg); evolution B Hm (fst bg)]) (rev l)) s0.
Proof.
  induction l as [|bg l IH]; [reflexivity|].
  cbn [fold_right rev]. rewrite flat_map_app, apply_in_order_app, <- IH. reflexivity.
Qed.

Lemma lecture_evaluate_ok (bg : list R) (H : Operator) (w : world B) :
  (p <= length bg / 2)%nat ->
  Lecture.evaluate_hamiltonian n_qubits p B bg H w =
  measured B H
    (lecture_preparation B (Lecture.Hm n_qubits) (Lecture.Hc n_qubits)
       (firstn p (firstn (length bg / 2) bg)) (firstn p (skipn (length bg / 2) bg))
       (Lecture.state_of B (Lecture.init_state n_qubits)))
    w.
Proof.
  intros Hp. unfold Lecture.evaluate_hamiltonian.
  rewrite lecture_create_circuit_ok
    by (rewrite ?half_firstn; try apply (Nat.le_trans _ _ _ Hp); auto using half_skipn).
  unfold bind, lift, call_oracle, ret, measured, lecture_preparation.
  rewrite lecture_state_of_steps, lecture_fold.
  destruct (expectation B H _ (rng w)); reflexivity.
Qed.

Lemma lecture_evaluate_fail (bg : list R) (H : Operator) (w : world B) :
  (length bg / 2 < p)%nat ->
  Lecture.evaluate_hamiltonian n_qubits p B bg H w = (inl IndexError, w).
Proof.
  intros Hp. unfold Lecture.evaluate_hamiltonian.
  rewrite lecture_create_circuit_fail by (left; now rewrite half_firstn).
  reflexivity.
Qed.

Variables (Hm Hc : Operator).

Lemma run_app (l1 l2 : list Assignment.instr) :
  Assignment.run n_qubits B (l1 ++ l2) =
  fold_left (Assignment.run_instr B) l2 (Assignment.run n_qubits B l1).
Proof. unfold Assignment.run. apply fold_left_app. Qed.

Lemma run_qiskit_gates (beta gamma : list R) (s0 : qstate B) :
  fold_left (Assignment.run_instr B) (flat_map (qiskit_gates Hm Hc) (combine beta gamma)) s0 =
  qiskit_preparation B Hm Hc beta gamma s0.
Proof.
  unfold qiskit_preparation, apply_in_order.
  generalize (combine beta gamma) as l. intros l. revert s0.
  induction l as [|bg l IH]; intros s0; [reflexivity|].
  cbn [flat_map qiskit_gates app fold_left]. apply IH.
Qed.

Lemma run_termwise (H : Operator) (t : R) (s0 : qstate B) :
  fold_left (Assignment.run_instr B)
            (flat_map (fun term => Assignment.exponential_map term t) H) s0 =
  evolution_termwise B H t s0.
Proof.
  unfold evolution_termwise. revert s0.
  induction H as [|term H IH]; intros s0; [reflexivity|].
  cbn [flat_map Assignment.exponential_map app fold_left]. apply IH.
Qed.

Lemma run_pyquil_gates (beta gamma : list R) (s0 : qstate B) :
  fold_left (Assignment.run_instr B) (flat_map (pyquil_gates Hm Hc) (combine beta gamma)) s0 =
  pyquil_preparation B Hm Hc beta gamma s0.
Proof.
  unfold pyquil_preparation, apply_in_order.
  generalize (combine beta gamma) as l. intros l. revert s0.
  induction l as [|bg l IH]; intros s0; [reflexivity|].
  cbn [flat_map]. rewrite !fold_left_app, IH. unfold pyquil_gates.
  rewrite fold_left_app, !run_termwise. reflexivity.
Qed.

Lemma pyquil_evaluate_ok (prog : list Assignment.instr) (bg : list R) (w : world B) :
  (p <= length bg / 2)%nat ->
  Assignment.evaluate_circuit n_qubits p B Hm Hc (Assignment.PyQuil prog) bg w =
  measured B Hc
    (pyquil_preparation B Hm Hc
       (firstn p (firstn (length bg / 2) bg)) (firstn p (skipn (length bg / 2) bg))
       (initial_state n_qubits B (Assignment.PyQuil prog)))
    w.
Proof.
  intros Hp. unfold Assignment.evaluate_circuit.
  rewrite pyquil_create_circuit_ok
    by (rewrite ?half_firstn; try apply (Nat.le_trans _ _ _ Hp); auto using half_skipn).
  unfold bind, lift, call_oracle, ret, measured, initial_state.
  cbn [Assignment.state_of].
  rewrite run_app, run_pyquil_gates.
  destruct (expectation B Hc _ (rng w)); reflexivity.
Qed.

Lemma qiskit_evaluate_ok (qc : Assignment.QuantumCircuit) (bg : list R) (w : world B) :
  Assignment.qregs qc <> [] -> (0 < p)%nat ->
  (p <= length bg / 2)%nat ->
  Assignment.evaluate_circuit n_qubits p B Hm Hc (Assignment.Qiskit qc) bg w =
  measured B Hc
    (qiskit_preparation B Hm Hc
       (firstn p (firstn (length bg / 2) bg)) (firstn p (skipn (length bg / 2) bg))
       (initial_state n_qubits B (Assignment.Qiskit qc)))
    w.
Proof.
  intros Hreg Hpos Hp. unfold Assignment.evaluate_circuit.
  assert (Hb : (p <= length (firstn (length bg / 2) bg))%nat) by now rewrite half_firstn.
  assert (Hg : (p <= length (skipn (length bg / 2) bg))%nat)
    by (apply (Nat.le_trans _ _ _ Hp), half_skipn).
  destruct (qiskit_create_circuit_ok p Hm Hc qc _ _ Hreg Hpos Hb Hg) as [regs ->].
  unfold bind, lift, call_oracle, ret, measured, initial_state.
  cbn [Assignment.state_of Assignment.data].
  rewrite run_app, run_qiskit_gates.
  destruct (expectation B Hc _ (rng w)); reflexivity.
Qed.

Lemma assignment_evaluate_ok (circuit_init : Assignment.circuit) (bg : list R) (w : world B) :
  well_formed_setup p Hm circuit_init ->
  (p <= length bg / 2)%nat ->
  Assignment.evaluate_circuit n_qubits p B Hm Hc circuit_init bg w =
  measured B Hc
    (assignment_preparation n_qubits B Hm Hc circuit_init
       (firstn p (firstn (length bg / 2) bg)) (firstn p (skipn (length bg / 2) bg)))
    w.
Proof.
  intros (Hne & Hpos & Hreg) Hp. destruct circuit_init as [qc|prog].
  - now apply qiskit_evaluate_ok.
  - now apply pyquil_evaluate_ok.
Qed.

Lemma assignment_evaluate_fail (circuit_init : Assignment.circuit) (bg : list R) (w : world B) :
  Hm <> [] ->
  (length bg / 2 < p)%nat ->
  Assignment.evaluate_circuit n_qubits p B Hm Hc circuit_init bg w = (inl IndexError, w).
Proof.
  intros Hne Hp. unfold Assignment.evaluate_circuit.
  destruct circuit_init as [qc|prog].
  - rewrite qiskit_create_circuit_fail by (left; now rewrite half_firstn).
    reflexivity.
  - rewrite pyquil_create_circuit_fail;
      [reflexivity|assumption|now rewrite half_firstn|].
    rewrite half_firstn. apply half_skipn.
Qed.
End Objectives.

(** ** The exact simulator on two qubits *)

Lemma C_eq (a b : C) : fst a = fst b -> snd a = snd b -> a = b.
Proof. destruct a, b; simpl; intros; subst; reflexivity. Qed.

Lemma map_vnth_seq (psi : vector) : map (vnth psi) (seq 0 (length psi)) = psi.
Proof.
  induction psi as [|a psi IH]; [reflexivity|].
  cbn [length seq map]. rewrite <- seq_shift, map_map. unfold vnth at 1. cbn [nth].
  f_equal. exact IH.
Qed.

Lemma pauli_rotation_zero (theta : R) (P : Pauli) (psi : vector) :
  theta = 0 -> pauli_rotation theta P psi = psi.
Proof.
  intros ->. unfold pauli_rotation.
  transitivity (map (vnth psi) (seq 0 (length psi))); [|apply map_vnth_seq].
  apply map_ext. intros r. rewrite cos_0, sin_0.
  apply C_eq; cbn [Cadd Cscale Cmul fst snd]; ring.
Qed.

Lemma exp_i_sv_zero (H : Operator) (psi : vector) :
  exp_i_sv (Operator_scale 0 H) psi = psi.
Proof.
  unfold exp_i_sv. revert psi. induction H as [|t H IH]; intros psi; [reflexivity|].
  cbn [Operator_scale map fold_left fst snd].
  rewrite pauli_rotation_zero by ring. apply IH.
Qed.

Ltac rotation4 :=
  intros;
  cbv [pauli_rotation Pauli_to_matrix pauli_z_bits pauli_x_bits combine fold_left pauli_block
       bmat map app mat_vec dot Csum fold_right length seq vnth nth X0 X1 Z0 Z0Z1 II mix];
  repeat (f_equal; try (apply C_eq; cbv [Cadd Cscale Cmul Copp Czero Cone Cimag fst snd]; ring)).

Lemma rotation_X0 (theta : R) (a b c d : C) :
  pauli_rotation theta X0 [a; b; c; d] =
  [mix theta a b; mix theta b a; mix theta c d; mix theta d c].
Proof. rotation4. Qed.

Lemma rotation_X1 (theta : R) (a b c d : C) :
  pauli_rotation theta X1 [a; b; c; d] =
  [mix theta a c; mix theta b d; mix theta c a; mix theta d b].
Proof. rotation4. Qed.

Lemma rotation_Z0 (theta : R) (a b c d : C) :
  pauli_rotation theta Z0 [a; b; c; d] =
  [mix theta a a; mix theta b (Copp b); mix theta c c; mix theta d (Copp d)].
Proof. rotation4. Qed.

Lemma rotation_Z0Z1 (theta : R) (a b c d : C) :
  pauli_rotation theta Z0Z1 [a; b; c; d] =
  [mix theta a a; mix theta b (Copp b); mix theta c (Copp c); mix theta d d].
Proof. rotation4. Qed.

Lemma rotation_II (theta : R) (a b c d : C) :
  pauli_rotation theta II [a; b; c; d] =
  [mix theta a a; mix theta b b; mix theta c c; mix theta d d].
Proof. rotation4. Qed.

Lemma lecture_Hm_2 : Lecture.Hm 2 = [(-1, X0); (-1, X1)].
Proof. reflexivity. Qed.

Lemma lecture_Hc_2 : Lecture.Hc 2 = [(- 0, II); (- 1, Z0Z1); (- 0, Z0Z1); (- 0, II)].
Proof. reflexivity. Qed.

Lemma assignment_Hm_2 : Assignment.Hm_solution 2 = [(1, X0); (1, X1)].
Proof. reflexivity. Qed.

Lemma assignment_Hc_2 : Assignment.Hc_solution 2 = [(-1, Z0Z1); (-0.5, Z0)].
Proof. reflexivity. Qed.

Lemma lecture_Hm_evolve (t : R) (a b c d : C) :
  exp_i_sv (Operator_scale t (Lecture.Hm 2)) [a; b; c; d] =
  pauli_rotation (- t) X1 (pauli_rotation (- t) X0 [a; b; c; d]).
Proof.
  rewrite lecture_Hm_2. cbn [exp_i_sv Operator_scale map fold_left fst snd].
  replace (t * -1) with (- t) by ring. reflexivity.
Qed.

Lemma lecture_Hc_evolve (t : R) (psi : vector) :
  exp_i_sv (Operator_scale t (Lecture.Hc 2)) psi = pauli_rotation (- t) Z0Z1 psi.
Proof.
  rewrite lecture_Hc_2. cbn [exp_i_sv Operator_scale map fold_left fst snd].
  rewrite (pauli_rotation_zero (t * - 0)) by ring.
  rewrite (pauli_rotation_zero (t * - 0)) by ring.
  rewrite (pauli_rotation_zero (t * - 0)) by ring.
  replace (t * -1) with (- t) by ring. reflexivity.
Qed.

Ltac expectation4 :=
  intros;
  cbv [expectation_sv inner Pauli_to_matrix pauli_z_bits pauli_x_bits combine fold_left
       pauli_block bmat map app mat_vec dot Csum fold_right X0 X1 Z0 Z0Z1 II Cre Cnorm2
       Cadd Cscale Cmul Copp Cconj Czero Cone Cimag fst snd];
  first [ring | field | nra].

Lemma lecture_Hc_expectation (a b c d : C) :
  Cre (expectation_sv (Lecture.Hc 2) [a; b; c; d]) =
  - (Cnorm2 a - Cnorm2 b - Cnorm2 c + Cnorm2 d).
Proof. rewrite lecture_Hc_2. destruct a, b, c, d. expectation4. Qed.

Lemma assignment_Hc_expectation (a b c d : C) :
  Cre (expectation_sv (Assignment.Hc_solution 2) [a; b; c; d]) =
  - (3 / 2) * Cnorm2 a + 3 / 2 * Cnorm2 b + 1 / 2 * Cnorm2 c - 1 / 2 * Cnorm2 d.
Proof. rewrite assignment_Hc_2. destruct a, b, c, d. expectation4. Qed.

(** The objective of the lecture at depth 1, in closed form. *)
Lemma lecture_landscape (b g : R) :
  Cre (expectation_sv (Lecture.Hc 2)
         (exp_i_sv (Operator_scale b (Lecture.Hm 2))
            (exp_i_sv (Operator_scale g (Lecture.Hc 2)) [half; half; half; half]))) =
  - (sin (4 * b) * sin (2 * g)).
Proof.
  rewrite lecture_Hc_evolve, rotation_Z0Z1, lecture_Hm_evolve, rotation_X0, rotation_X1.
  rewrite lecture_Hc_expectation.
  replace (4 * b) with (2 * (2 * b)) by ring.
  rewrite !sin_2a, cos_2a.
  cbv [mix Cnorm2 Cadd Cscale Cmul Copp half RtoC fst snd].
  rewrite !cos_neg, !sin_neg.
  field.
Qed.

(** In the order of the spec the mixer acts on its own eigenstate and the
    cost evolution is diagonal: the expectation does not move. *)
Lemma lecture_flat (b g : R) :
  Cre (expectation_sv (Lecture.Hc 2)
         (exp_i_sv (Operator_scale g (Lecture.Hc 2))
            (exp_i_sv (Operator_scale b (Lecture.Hm 2)) [half; half; half; half]))) = 0.
Proof.
  rewrite lecture_Hm_evolve, rotation_X0, rotation_X1, lecture_Hc_evolve, rotation_Z0Z1.
  rewrite lecture_Hc_expectation.
  cbv [mix Cnorm2 Cadd Cscale Cmul Copp half RtoC fst snd].
  rewrite !cos_neg, !sin_neg.
  field.
Qed.

(** ** The initial states on two qubits *)

Lemma sqrt_4 : sqrt (2 ^ 2) = 2.
Proof. apply sqrt_pow2. lra. Qed.

Lemma lecture_init_2 :
  Lecture.state_of statevector_simulator (Lecture.init_state 2) = [half; half; half; half].
Proof.
  unfold Lecture.state_of, Lecture.init_state, Lecture.init_state_vect.
  cbn [Lecture.eval_op prepare statevector_simulator Nat.pow Nat.mul Nat.add seq map].
  rewrite sqrt_4. unfold half, RtoC.
  repeat (f_equal; try lra).
Qed.

Lemma uniform_2 : Assignment.uniform 2 = [half; half; half; half].
Proof.
  unfold Assignment.uniform. cbn [Nat.pow Nat.mul Nat.add repeat].
  rewrite sqrt_4. reflexivity.
Qed.

(** ** The order of the evolutions *)

Lemma even_split (p : nat) (bg : list R) :
  length bg = (2 * p)%nat ->
  (length bg / 2)%nat = p /\
  firstn p (firstn p bg) = firstn p bg /\
  firstn p (skipn p bg) = skipn p bg.
Proof.
  intros E. repeat split.
  - rewrite E, Nat.mul_comm. apply Nat.div_mul. discriminate.
  - rewrite firstn_firstn. f_equal. lia.
  - apply firstn_all2. rewrite length_skipn. lia.
Qed.

Lemma solution_setup (k : Assignment.sdk) (p : nat) :
  (0 < p)%nat ->
  well_formed_setup p (Assignment.Hm_solution 2) (Assignment.circuit_init_solution k 2).
Proof.
  intros Hp. repeat split; [rewrite assignment_Hm_2; discriminate|assumption|].
  destruct k; simpl; [discriminate|exact I].
Qed.

(** C1 (amended).  For a parameter vector of length [2p] the objective
    splits it into [beta = bg[:p]] and [gamma = bg[p:]] and returns the real
    part of one backend expectation, taken in the state prepared from the
    initial state as follows.  Lecture notebook: for [i] from [p-1] down to
    [0], the cost observable for [gamma[i]], then the mixing observable for
    [beta[i]].  Assignment, PyQuil branch: for [i] from [0] to [p-1], the
    terms of the mixing observable for [-beta[i]], then those of the cost
    observable for [-gamma[i]], that is the order of the claim with
    [e^{+i beta H}] for the evolution. *)
Theorem objective_alternation
        (n_qubits p : nat) (B : Backend) (Hm Hc : Operator)
        (prog : list Assignment.instr) (bg : list R) (H : Operator) (w : world B) :
  length bg = (2 * p)%nat ->
  Lecture.evaluate_hamiltonian n_qubits p B bg H w =
    measured B H
      (lecture_preparation B (Lecture.Hm n_qubits) (Lecture.Hc n_qubits)
         (firstn p bg) (skipn p bg) (Lecture.state_of B (Lecture.init_state n_qubits)))
      w
  /\
  Assignment.evaluate_circuit n_qubits p B Hm Hc (Assignment.PyQuil prog) bg w =
    measured B Hc
      (pyquil_preparation B Hm Hc (firstn p bg) (skipn p bg)
         (initial_state n_qubits B (Assignment.PyQuil prog)))
      w.
Proof.
  intros Hlen. destruct (even_split p bg Hlen) as (Hh & Hb & Hg). split.
  - rewrite lecture_evaluate_ok by lia. now rewrite Hh, Hb, Hg.
  - rewrite pyquil_evaluate_ok by lia. now rewrite Hh, Hb, Hg.
Qed.

Lemma objective_alternation_witness :
  Lecture.evaluate_hamiltonian 2 1 statevector_simulator [0; 0] (Lecture.Hc 2) w0 =
    measured statevector_simulator (Lecture.Hc 2)
      (lecture_preparation statevector_simulator (Lecture.Hm 2) (Lecture.Hc 2)
         [0] [0] (Lecture.state_of statevector_simulator (Lecture.init_state 2)))
      w0
  /\
  Assignment.evaluate_circuit 2 1 statevector_simulator
      (Assignment.Hm_solution 2) (Assignment.Hc_solution 2)
      (Assignment.PyQuil [Assignment.InitI (Assignment.uniform 2)]) [0; 0] w0 =
    measured statevector_simulator (Assignment.Hc_solution 2)
      (pyquil_preparation statevector_simulator
         (Assignment.Hm_solution 2) (Assignment.Hc_solution 2) [0] [0]
         (initial_state 2 statevector_simulator
            (Assignment.PyQuil [Assignment.InitI (Assignment.uniform 2)])))
      w0.
Proof.
  apply (objective_alternation 2 1 statevector_simulator
           (Assignment.Hm_solution 2) (Assignment.Hc_solution 2)
           [Assignment.InitI (Assignment.uniform 2)] [0; 0] (Lecture.Hc 2) w0).
  reflexivity.
Defined.

Lemma sin_PI2_4 : sin (4 * (PI / 8)) = 1.
Proof. replace (4 * (PI / 8)) with (PI / 2) by field. apply sin_PI2. Qed.

Lemma sin_PI2_2 : sin (2 * (PI / 4)) = 1.
Proof. replace (2 * (PI / 4)) with (PI / 2) by field. apply sin_PI2. Qed.

(** At depth 1 the lecture's objective is [-sin(4 beta) sin(2 gamma)]. *)
Lemma lecture_depth1 (b g : R) (w : world statevector_simulator) :
  fst (Lecture.evaluate_hamiltonian 2 1 statevector_simulator [b; g] (Lecture.Hc 2) w) =
  inr (- (sin (4 * b) * sin (2 * g))).
Proof.
  rewrite lecture_evaluate_ok by (simpl; lia).
  change (Nat.div (length [b; g]) 2) with 1%nat. cbn [firstn skipn].
  unfold measured, lecture_preparation, apply_in_order, evolution.
  cbn [combine rev app flat_map fold_left expectation exp_i statevector_simulator fst].
  rewrite lecture_init_2, lecture_landscape. reflexivity.
Qed.

(** C1, counterexample.  At depth 1 and [(beta, gamma) = (pi/8, pi/4)] the
    lecture's objective returns [-1], whereas the expectation in the state
    prepared in the order of the claim (mixing first) is [0]. *)
Lemma objective_alternation_counterexample :
  fst (Lecture.evaluate_hamiltonian 2 1 statevector_simulator [PI / 8; PI / 4]
         (Lecture.Hc 2) w0) <>
  fst (measured statevector_simulator (Lecture.Hc 2)
         (spec_preparation statevector_simulator (Lecture.Hm 2) (Lecture.Hc 2)
            [PI / 8] [PI / 4]
            (Lecture.state_of statevector_simulator (Lecture.init_state 2)))
         w0).
Proof.
  rewrite lecture_depth1, sin_PI2_4, sin_PI2_2.
  unfold measured, spec_preparation, apply_in_order, evolution.
  cbn [combine app flat_map fold_left expectation exp_i statevector_simulator fst].
  rewrite lecture_init_2, lecture_flat.
  intros E. injection E. lra.
Qed.

(** ** The all-zero parameter vector *)

Section ZeroVector.
Variable B : Backend.
Hypothesis Hzero : zero_duration_identity B.

Lemma apply_in_order_id (steps : list (qstate B -> qstate B)) (s : qstate B) :
  Forall (fun step => forall s', step s' = s') steps -> apply_in_order B steps s = s.
Proof.
  unfold apply_in_order. intros Hall; revert s.
  induction Hall as [|step steps Hstep _ IH]; intros s; [reflexivity|].
  cbn [fold_left]. rewrite Hstep. apply IH.
Qed.

Lemma evolution_zero (H : Operator) (s : qstate B) : evolution B H 0 s = s.
Proof. apply Hzero. Qed.

Lemma evolution_termwise_zero (H : Operator) (s : qstate B) :
  evolution_termwise B H (- 0) s = s.
Proof.
  unfold evolution_termwise. rewrite Ropp_0. revert s.
  induction H as [|term H IH]; intros s; [reflexivity|].
  cbn [fold_left]. rewrite Hzero. apply IH.
Qed.

Lemma zero_pairs (k : nat) (bg : R * R) :
  In bg (combine (repeat 0 k) (repeat 0 k)) -> bg = (0, 0).
Proof.
  destruct bg as [b g]. intros Hin.
  pose proof (in_combine_l _ _ _ _ Hin) as Hb.
  pose proof (in_combine_r _ _ _ _ Hin) as Hg.
  apply repeat_spec in Hb, Hg. now subst.
Qed.

Lemma lecture_preparation_zero (Hm Hc : Operator) (k : nat) (s0 : qstate B) :
  lecture_preparation B Hm Hc (repeat 0 k) (repeat 0 k) s0 = s0.
Proof.
  apply apply_in_order_id, Forall_forall. intros step Hin.
  apply in_flat_map in Hin. destruct Hin as (bg & Hbg & Hstep).
  apply in_rev, zero_pairs in Hbg. subst bg.
  destruct Hstep as [<-|[<-|[]]]; intros s'; apply evolution_zero.
Qed.

Lemma assignment_preparation_zero (n_qubits : nat) (Hm Hc : Operator)
      (circuit_init : Assignment.circuit) (k : nat) :
  assignment_preparation n_qubits B Hm Hc circuit_init (repeat 0 k) (repeat 0 k) =
  initial_state n_qubits B circuit_init.
Proof.
  destruct circuit_init as [qc|prog]; cbn [assignment_preparation];
    apply apply_in_order_id, Forall_forall; intros step Hin;
    apply in_flat_map in Hin; destruct Hin as (bg & Hbg & Hstep);
    apply zero_pairs in Hbg; subst bg;
    destruct Hstep as [<-|[<-|[]]]; intros s';
    first [apply evolution_zero | apply evolution_termwise_zero].
Qed.
End ZeroVector.

Lemma zero_vector_split (p : nat) :
  (length (repeat 0%R (2 * p)) / 2)%nat = p /\
  firstn p (repeat 0 (2 * p)) = repeat 0 p /\
  skipn p (repeat 0 (2 * p)) = repeat 0 p.
Proof.
  assert (E : repeat 0 (2 * p) = repeat 0 p ++ repeat 0 p)
    by (replace (2 * p)%nat with (p + p)%nat by lia; apply repeat_app).
  rewrite E.
  destruct (half_concat (repeat 0 p) (repeat 0 p) eq_refl) as (Hh & Hb & Hg).
  rewrite repeat_length in Hh. rewrite Hh in Hb, Hg. repeat split; assumption.
Qed.

Lemma statevector_zero_duration : zero_duration_identity statevector_simulator.
Proof. intros H s. apply exp_i_sv_zero. Qed.

(** C3.  At every depth [p] the objective applied to the all-zero vector
    of length [2p] returns the expectation of the cost observable in the
    untouched initial state, on every backend for which evolving for no time
    changes nothing. *)
Theorem zero_vector_expectation
        (n_qubits p : nat) (B : Backend) (Hm Hc : Operator)
        (circuit_init : Assignment.circuit) (w : world B) :
  zero_duration_identity B ->
  well_formed_setup p Hm circuit_init ->
  Lecture.evaluate_hamiltonian n_qubits p B (repeat 0 (2 * p)) (Lecture.Hc n_qubits) w =
    measured B (Lecture.Hc n_qubits) (Lecture.state_of B (Lecture.init_state n_qubits)) w
  /\
  Assignment.evaluate_circuit n_qubits p B Hm Hc circuit_init (repeat 0 (2 * p)) w =
    measured B Hc (initial_state n_qubits B circuit_init) w.
Proof.
  intros Hzero Hwf. destruct (zero_vector_split p) as (Hh & Hb & Hg). split.
  - rewrite lecture_evaluate_ok by lia.
    rewrite Hh, Hb, Hg, firstn_all2 by (rewrite repeat_length; lia).
    now rewrite lecture_preparation_zero.
  - rewrite assignment_evaluate_ok by (assumption || lia).
    rewrite Hh, Hb, Hg, firstn_all2 by (rewrite repeat_length; lia).
    now rewrite assignment_preparation_zero.
Qed.

Lemma zero_vector_expectation_witness :
  Lecture.evaluate_hamiltonian 2 2 statevector_simulator (repeat 0 (2 * 2)) (Lecture.Hc 2) w0 =
    measured statevector_simulator (Lecture.Hc 2)
      (Lecture.state_of statevector_simulator (Lecture.init_state 2)) w0
  /\
  Assignment.evaluate_circuit 2 2 statevector_simulator
      (Assignment.Hm_solution 2) (Assignment.Hc_solution 2)
      (Assignment.circuit_init_solution Assignment.UsePyQuil 2) (repeat 0 (2 * 2)) w0 =
    measured statevector_simulator (Assignment.Hc_solution 2)
      (initial_state 2 statevector_simulator
         (Assignment.circuit_init_solution Assignment.UsePyQuil 2)) w0.
Proof.
  apply zero_vector_expectation.
  - exact statevector_zero_duration.
  - apply solution_setup. lia.
Defined.

(** ** No check on the imaginary part *)

Lemma measured_value (B : Backend) (H : Operator) (s : qstate B) (w : world B) :
  fst (measured B H s w) = inr (Cre (fst (expectation B H s (rng w)))).
Proof. unfold measured. destruct (expectation B H s (rng w)); reflexivity. Qed.

Lemma measured_calls (B : Backend) (H : Operator) (s : qstate B) (w : world B) :
  oracle_calls (snd (measured B H s w)) = S (oracle_calls w).
Proof. unfold measured. destruct (expectation B H s (rng w)); reflexivity. Qed.

(** C5 (amended).  Whenever the circuit can be built, the objective
    returns the real part of the backend's value for that circuit and
    raises nothing, whatever the imaginary part of that value. *)
Theorem objective_real_part
        (n_qubits p : nat) (B : Backend) (Hm Hc : Operator)
        (circuit_init : Assignment.circuit) (bg : list R) (H : Operator) (w : world B)
        (lecture_circuit : Lecture.OperatorBase) (assignment_circuit : Assignment.circuit) :
  Lecture.create_circuit n_qubits p
    (firstn (length bg / 2) bg) (skipn (length bg / 2) bg) = inr lecture_circuit ->
  Assignment.create_circuit p Hm Hc circuit_init
    (firstn (length bg / 2) bg) (skipn (length bg / 2) bg) = inr assignment_circuit ->
  fst (Lecture.evaluate_hamiltonian n_qubits p B bg H w) =
    inr (Cre (fst (expectation B H (Lecture.state_of B lecture_circuit) (rng w))))
  /\
  fst (Assignment.evaluate_circuit n_qubits p B Hm Hc circuit_init bg w) =
    inr (Cre (fst (expectation B Hc
                     (Assignment.state_of n_qubits B assignment_circuit) (rng w)))).
Proof.
  intros El Ea. split.
  - unfold Lecture.evaluate_hamiltonian. rewrite El.
    unfold bind, lift, call_oracle, ret.
    destruct (expectation B H _ (rng w)); reflexivity.
  - unfold Assignment.evaluate_circuit. rewrite Ea.
    unfold bind, lift, call_oracle, ret.
    destruct assignment_circuit as [qc|prog];
      destruct (expectation B Hc _ (rng w)); reflexivity.
Qed.

Lemma objective_real_part_witness :
  fst (Lecture.evaluate_hamiltonian 2 1 faulty_backend [0; 0] (Lecture.Hc 2) wf) =
    inr (Cre (fst (expectation faulty_backend (Lecture.Hc 2)
                     (Lecture.state_of faulty_backend
                        (Lecture.ComposedOp [lecture_step 2 (0, 0); Lecture.init_state 2]))
                     (rng wf))))
  /\
  fst (Assignment.evaluate_circuit 2 1 faulty_backend
         (Assignment.Hm_solution 2) (Assignment.Hc_solution 2)
         (Assignment.circuit_init_solution Assignment.UsePyQuil 2) [0; 0] wf) =
    inr (Cre (fst (expectation faulty_backend (Assignment.Hc_solution 2)
                     (Assignment.state_of 2 faulty_backend
                        (Assignment.PyQuil
                           (Assignment.InitI (Assignment.uniform 2)
                            :: pyquil_gates (Assignment.Hm_solution 2)
                                 (Assignment.Hc_solution 2) (0, 0))))
                     (rng wf)))).
Proof.
  apply (objective_real_part 2 1 faulty_backend
           (Assignment.Hm_solution 2) (Assignment.Hc_solution 2)
           (Assignment.circuit_init_solution Assignment.UsePyQuil 2) [0; 0]
           (Lecture.Hc 2) wf).
  - reflexivity.
  - reflexivity.
Defined.

(** C5, counterexample.  On a backend whose value has imaginary part 1 the
    lecture's objective still returns a number, the real part, instead of
    an error. *)
Lemma objective_real_part_counterexample :
  let v := fst (expectation faulty_backend (Lecture.Hc 2)
                  (Lecture.state_of faulty_backend (Lecture.init_state 2)) 0%nat) in
  Cim v = 1 /\
  Lecture.evaluate_hamiltonian 2 1 faulty_backend [0; 0] (Lecture.Hc 2) wf =
  (inr (Cre v), @mkWorld faulty_backend 0%nat 1%nat).
Proof.
  cbv zeta. split.
  - cbn [expectation faulty_backend fst].
    change (Lecture.state_of faulty_backend (Lecture.init_state 2))
      with (Lecture.state_of statevector_simulator (Lecture.init_state 2)).
    rewrite lecture_init_2, lecture_Hc_2. unfold half.
    cbv [expectation_sv inner Pauli_to_matrix pauli_z_bits pauli_x_bits combine fold_left
         pauli_block bmat map app mat_vec dot Csum fold_right Z0Z1 II Cim RtoC
         Cadd Cscale Cmul Copp Cconj Czero Cone Cimag fst snd].
    field.
  - rewrite lecture_evaluate_ok by (simpl; lia).
    change (Nat.div (length [0; 0]) 2) with 1%nat. cbn [firstn skipn].
    rewrite (lecture_preparation_zero faulty_backend) with (k := 1%nat)
      by (intros H s; apply exp_i_sv_zero).
    reflexivity.
Qed.

(** ** No check on the length *)

(** C6 (amended).  The objective validates nothing.  A vector whose half
    [len // 2] is shorter than [p] makes the construction of the circuit
    raise [IndexError] before any backend call; every other vector, of odd
    or excessive length too, is accepted: no error, one backend call. *)
Theorem objective_length_handling
        (n_qubits p : nat) (B : Backend) (Hm Hc : Operator)
        (circuit_init : Assignment.circuit) (bg : list R) (H : Operator) (w : world B) :
  well_formed_setup p Hm circuit_init ->
  if (length bg / 2 <? p)%nat
  then
    Lecture.evaluate_hamiltonian n_qubits p B bg H w = (inl IndexError, w) /\
    Assignment.evaluate_circuit n_qubits p B Hm Hc circuit_init bg w = (inl IndexError, w)
  else
    (exists v w', Lecture.evaluate_hamiltonian n_qubits p B bg H w = (inr v, w') /\
                  oracle_calls w' = S (oracle_calls w)) /\
    (exists v w', Assignment.evaluate_circuit n_qubits p B Hm Hc circuit_init bg w = (inr v, w') /\
                  oracle_calls w' = S (oracle_calls w)).
Proof.
  intros Hwf. destruct (Nat.ltb_spec (length bg / 2) p) as [Hp|Hp].
  - split.
    + now apply lecture_evaluate_fail.
    + apply assignment_evaluate_fail; [apply Hwf|assumption].
  - split.
    + rewrite lecture_evaluate_ok by assumption.
      unfold measured. destruct (expectation B H _ (rng w)) as [v r'].
      now exists (Cre v), (mkWorld r' (S (oracle_calls w))).
    + rewrite assignment_evaluate_ok by assumption.
      unfold measured. destruct (expectation B Hc _ (rng w)) as [v r'].
      now exists (Cre v), (mkWorld r' (S (oracle_calls w))).
Qed.

Lemma objective_length_handling_witness :
  (exists v w', Lecture.evaluate_hamiltonian 2 1 statevector_simulator [0; 0; 0]
                  (Lecture.Hc 2) w0 = (inr v, w') /\
                oracle_calls w' = S (oracle_calls w0)) /\
  (exists v w', Assignment.evaluate_circuit 2 1 statevector_simulator
                  (Assignment.Hm_solution 2) (Assignment.Hc_solution 2)
                  (Assignment.circuit_init_solution Assignment.UsePyQuil 2) [0; 0; 0] w0 =
                (inr v, w') /\
                oracle_calls w' = S (oracle_calls w0)).
Proof.
  apply (objective_length_handling 2 1 statevector_simulator
           (Assignment.Hm_solution 2) (Assignment.Hc_solution 2)
           (Assignment.circuit_init_solution Assignment.UsePyQuil 2) [0; 0; 0]
           (Lecture.Hc 2) w0).
  apply solution_setup. lia.
Defined.

(** C6, counterexample.  At depth 1 the vector [[0; 0; 0]] has odd length,
    and the lecture's objective runs one backend job and returns a value;
    no error is reported. *)
Lemma objective_length_handling_counterexample :
  length [0; 0; 0] <> 2%nat /\
  Lecture.evaluate_hamiltonian 2 1 statevector_simulator [0; 0; 0] (Lecture.Hc 2) w0 =
  (inr (Cre (expectation_sv (Lecture.Hc 2) [half; half; half; half])),
   @mkWorld statevector_simulator 0%nat 1%nat).
Proof.
  split; [simpl; lia|].
  rewrite lecture_evaluate_ok by (simpl; lia).
  change (Nat.div (length [0; 0; 0]) 2) with 1%nat. cbn [firstn skipn].
  rewrite (lecture_preparation_zero statevector_simulator statevector_zero_duration)
    with (k := 1%nat).
  rewrite lecture_init_2. reflexivity.
Qed.

(** ** Determinism *)

(** C8.  On an exact backend the value the objective returns for a
    parameter vector does not depend on the moment of the call: any two
    calls with the same vector return the same number (or raise the same
    exception). *)
Theorem objective_deterministic
        (n_qubits p : nat) (B : Backend) (Hm Hc : Operator)
        (circuit_init : Assignment.circuit) (bg : list R) (H : Operator) (w1 w2 : world B) :
  exact_backend B ->
  fst (Lecture.evaluate_hamiltonian n_qubits p B bg H w1) =
  fst (Lecture.evaluate_hamiltonian n_qubits p B bg H w2)
  /\
  fst (Assignment.evaluate_circuit n_qubits p B Hm Hc circuit_init bg w1) =
  fst (Assignment.evaluate_circuit n_qubits p B Hm Hc circuit_init bg w2).
Proof.
  intros Hexact. split.
  - unfold Lecture.evaluate_hamiltonian, bind, lift, call_oracle, ret.
    destruct (Lecture.create_circuit n_qubits p _ _) as [e|circuit]; [reflexivity|].
    pose proof (Hexact H (Lecture.state_of B circuit) (rng w1) (rng w2)) as E.
    destruct (expectation B H _ (rng w1)), (expectation B H _ (rng w2)).
    simpl in *. now subst.
  - unfold Assignment.evaluate_circuit, bind, lift, call_oracle, ret.
    destruct (Assignment.create_circuit p Hm Hc circuit_init _ _) as [e|[qc|prog]];
      [reflexivity| |].
    + pose proof (Hexact Hc (Assignment.state_of n_qubits B (Assignment.Qiskit qc))
                    (rng w1) (rng w2)) as E.
      destruct (expectation B Hc _ (rng w1)), (expectation B Hc _ (rng w2)).
      simpl in *. now subst.
    + pose proof (Hexact Hc (Assignment.state_of n_qubits B (Assignment.PyQuil prog))
                    (rng w1) (rng w2)) as E.
      destruct (expectation B Hc _ (rng w1)), (expectation B Hc _ (rng w2)).
      simpl in *. now subst.
Qed.

Lemma statevector_exact : exact_backend statevector_simulator.
Proof. intros H s r1 r2. reflexivity. Qed.

Lemma objective_deterministic_witness :
  fst (Lecture.evaluate_hamiltonian 2 1 statevector_simulator [PI / 8; PI / 4] (Lecture.Hc 2)
         (@mkWorld statevector_simulator 0%nat 0%nat)) =
  fst (Lecture.evaluate_hamiltonian 2 1 statevector_simulator [PI / 8; PI / 4] (Lecture.Hc 2)
         (@mkWorld statevector_simulator 7%nat 3%nat))
  /\
  fst (Assignment.evaluate_circuit 2 1 statevector_simulator
         (Assignment.Hm_solution 2) (Assignment.Hc_solution 2)
         (Assignment.circuit_init_solution Assignment.UseQiskit 2) [PI / 8; PI / 4]
         (@mkWorld statevector_simulator 0%nat 0%nat)) =
  fst (Assignment.evaluate_circuit 2 1 statevector_simulator
         (Assignment.Hm_solution 2) (Assignment.Hc_solution 2)
         (Assignment.circuit_init_solution Assignment.UseQiskit 2) [PI / 8; PI / 4]
         (@mkWorld statevector_simulator 7%nat 3%nat)).
Proof.
  apply objective_deterministic. exact statevector_exact.
Defined.

(** ** The depth is the ambient [p] *)

Lemma firstn_firstn_same {A : Type} (p : nat) (l : list A) :
  firstn p (firstn p l) = firstn p l.
Proof. rewrite firstn_firstn. f_equal. lia. Qed.

Lemma lecture_create_circuit_firstn (n_qubits p : nat) (beta gamma : list R) :
  (p <= length beta)%nat -> (p <= length gamma)%nat ->
  Lecture.create_circuit n_qubits p beta gamma =
  Lecture.create_circuit n_qubits p (firstn p beta) (firstn p gamma).
Proof.
  intros Hb Hg.
  rewrite !lecture_create_circuit_ok by (rewrite ?length_firstn; lia).
  now rewrite !firstn_firstn_same.
Qed.

Lemma assignment_create_circuit_firstn
      (p : nat) (Hm Hc : Operator) (circuit_init : Assignment.circuit) (beta gamma : list R) :
  (p <= length beta)%nat -> (p <= length gamma)%nat ->
  Assignment.create_circuit p Hm Hc circuit_init beta gamma =
  Assignment.create_circuit p Hm Hc circuit_init (firstn p beta) (firstn p gamma).
Proof.
  intros Hb Hg. destruct circuit_init as [qc|prog].
  - unfold Assignment.create_circuit.
    destruct (Assignment.qregs qc) as [|qr regs]; [reflexivity|].
    rewrite !(steps_ok (fun b g => Assignment.qc_add (Assignment.evolve Hc b qr)
                                                     (Assignment.evolve Hm g qr)))
      by (rewrite ?length_firstn; lia).
    now rewrite !firstn_firstn_same.
  - rewrite !pyquil_create_circuit_ok by (rewrite ?length_firstn; lia).
    now rewrite !firstn_firstn_same.
Qed.

(** C10.  The objectives take the number of steps from the ambient [p]
    and check no length.  For [beta] and [gamma] of a common length
    [m >= p] (so for [m > p]) each objective returns a value, with one
    backend job, and it is the value and the outcome it returns on the
    first [p] entries of [beta] and of [gamma] alone: the entries beyond
    are ignored.  For [m < p] the construction of the circuit raises
    [IndexError] and no backend job is run. *)
Theorem objective_ambient_depth
        (n_qubits p : nat) (B : Backend) (Hm Hc : Operator)
        (circuit_init : Assignment.circuit) (beta gamma : list R) (H : Operator)
        (w : world B) :
  well_formed_setup p Hm circuit_init ->
  length beta = length gamma ->
  if (length beta <? p)%nat
  then
    Lecture.evaluate_hamiltonian n_qubits p B (beta ++ gamma) H w = (inl IndexError, w)
    /\
    Assignment.evaluate_circuit n_qubits p B Hm Hc circuit_init (beta ++ gamma) w =
    (inl IndexError, w)
  else
    (exists v w',
       Lecture.evaluate_hamiltonian n_qubits p B (beta ++ gamma) H w = (inr v, w') /\
       Lecture.evaluate_hamiltonian n_qubits p B (firstn p beta ++ firstn p gamma) H w =
         (inr v, w') /\
       oracle_calls w' = S (oracle_calls w))
    /\
    (exists v w',
       Assignment.evaluate_circuit n_qubits p B Hm Hc circuit_init (beta ++ gamma) w =
         (inr v, w') /\
       Assignment.evaluate_circuit n_qubits p B Hm Hc circuit_init
         (firstn p beta ++ firstn p gamma) w = (inr v, w') /\
       oracle_calls w' = S (oracle_calls w)).
Proof.
  intros Hwf Hlen. pose proof Hwf as (Hne & Hpos & Hreg).
  destruct (half_concat beta gamma Hlen) as (Hh & Hb & Hg).
  destruct (Nat.ltb_spec (length beta) p) as [Hp|Hp].
  - split.
    + apply lecture_evaluate_fail. lia.
    + apply assignment_evaluate_fail; [assumption|lia].
  - assert (Hlen' : length (firstn p beta) = length (firstn p gamma))
      by (rewrite !length_firstn; lia).
    destruct (half_concat _ _ Hlen') as (Hh' & Hb' & Hg').
    assert (Hp' : (p <= length (firstn p beta ++ firstn p gamma) / 2)%nat)
      by (rewrite Hh', length_firstn; lia).
    assert (EL : Lecture.evaluate_hamiltonian n_qubits p B (beta ++ gamma) H w =
                 Lecture.evaluate_hamiltonian n_qubits p B
                   (firstn p beta ++ firstn p gamma) H w).
    { unfold Lecture.evaluate_hamiltonian. rewrite Hb', Hg', Hb, Hg.
      now rewrite (lecture_create_circuit_firstn n_qubits p beta gamma) by lia. }
    assert (EA : Assignment.evaluate_circuit n_qubits p B Hm Hc circuit_init
                   (beta ++ gamma) w =
                 Assignment.evaluate_circuit n_qubits p B Hm Hc circuit_init
                   (firstn p beta ++ firstn p gamma) w).
    { unfold Assignment.evaluate_circuit. rewrite Hb', Hg', Hb, Hg.
      now rewrite (assignment_create_circuit_firstn p Hm Hc circuit_init beta gamma) by lia. }
    split.
    + rewrite EL, (lecture_evaluate_ok n_qubits p B _ H w Hp').
      unfold measured. destruct (expectation B H _ (rng w)) as [v r'].
      exists (Cre v), (mkWorld r' (S (oracle_calls w))). repeat split.
    + rewrite EA, (assignment_evaluate_ok n_qubits p B Hm Hc circuit_init _ w Hwf Hp').
      unfold measured. destruct (expectation B Hc _ (rng w)) as [v r'].
      exists (Cre v), (mkWorld r' (S (oracle_calls w))). repeat split.
Qed.

Lemma objective_ambient_depth_witness :
  (exists v w',
     Lecture.evaluate_hamiltonian 2 1 statevector_simulator ([1; 2] ++ [3; 4])
       (Lecture.Hc 2) w0 = (inr v, w') /\
     Lecture.evaluate_hamiltonian 2 1 statevector_simulator
       (firstn 1 [1; 2] ++ firstn 1 [3; 4]) (Lecture.Hc 2) w0 = (inr v, w') /\
     oracle_calls w' = S (oracle_calls w0))
  /\
  (exists v w',
     Assignment.evaluate_circuit 2 1 statevector_simulator
       (Assignment.Hm_solution 2) (Assignment.Hc_solution 2)
       (Assignment.circuit_init_solution Assignment.UseQiskit 2) ([1; 2] ++ [3; 4]) w0 =
       (inr v, w') /\
     Assignment.evaluate_circuit 2 1 statevector_simulator
       (Assignment.Hm_solution 2) (Assignment.Hc_solution 2)
       (Assignment.circuit_init_solution Assignment.UseQiskit 2)
       (firstn 1 [1; 2] ++ firstn 1 [3; 4]) w0 = (inr v, w') /\
     oracle_calls w' = S (oracle_calls w0)).
Proof.
  apply (objective_ambient_depth 2 1 statevector_simulator
           (Assignment.Hm_solution 2) (Assignment.Hc_solution 2)
           (Assignment.circuit_init_solution Assignment.UseQiskit 2) [1; 2] [3; 4]
           (Lecture.Hc 2) w0).
  - apply (solution_setup Assignment.UseQiskit). lia.
  - reflexivity.
Defined.

(** ** The optimiser *)

Section Driver.
Variables (B : Backend) (S_ : Strategy) (objective : list R -> M B R).
Variable Inv : memory S_ -> Prop.
Variable Q : R -> Prop.
Hypothesis Hobs : forall st c v, Inv st -> Inv (observe S_ st c v).
Hypothesis Hcand :
  forall st w, Inv st ->
    exists v w', objective (candidate S_ st) w = (inr v, w') /\ Q v.

Lemma iterate_returns : forall fuel st best_x best_f evals its w,
  Inv st -> Q best_f ->
  exists res w',
    iterate B S_ objective fuel st best_x best_f evals its w = (inr res, w') /\
    Q (fun_ res) /\ fun_ res <= best_f.
Proof.
  induction fuel as [|fuel IH]; intros st best_x best_f evals its w Hst HQ;
    cbn [iterate]; destruct (converged S_ st).
  - eexists _, _. split; [reflexivity|]. cbn [fun_]. split; [assumption|lra].
  - eexists _, _. split; [reflexivity|]. cbn [fun_]. split; [assumption|lra].
  - eexists _, _. split; [reflexivity|]. cbn [fun_]. split; [assumption|lra].
  - unfold bind. destruct (Hcand st w Hst) as (v & w' & -> & Hv).
    pose proof (Hobs st (candidate S_ st) v Hst) as Hst'.
    destruct (Rlt_dec v best_f) as [Hlt|Hge].
    + destruct (IH (observe S_ st (candidate S_ st) v) (candidate S_ st) v
                   (S evals) (S its) w' Hst' Hv) as (res & w'' & E & HQr & Hle).
      exists res, w''. repeat split; [assumption|assumption|lra].
    + destruct (IH (observe S_ st (candidate S_ st) v) best_x best_f
                   (S evals) (S its) w' Hst' HQ) as (res & w'' & E & HQr & Hle).
      exists res, w''. repeat split; assumption.
Qed.

End Driver.

Lemma iterate_spends (B : Backend) (S_ : Strategy) (objective : list R -> M B R) :
  forall fuel st best_x best_f evals its w,
    budget_spent B S_ objective fuel st w = true ->
    exists res w',
      iterate B S_ objective fuel st best_x best_f evals its w = (inr res, w') /\
      success res = false /\
      nit res = (its + fuel)%nat /\
      nfev res = (evals + length (history B S_ objective fuel st w))%nat /\
      ((x res, fun_ res) = (best_x, best_f) \/
       In (x res, fun_ res) (history B S_ objective fuel st w)) /\
      fun_ res <= best_f /\
      Forall (fun pv => fun_ res <= snd pv) (history B S_ objective fuel st w).
Proof.
  induction fuel as [|fuel IH]; intros st best_x best_f evals its w Hrun;
    cbn [budget_spent] in Hrun; cbn [iterate history];
    destruct (converged S_ st); try discriminate Hrun; cbn [negb andb] in Hrun.
  - eexists _, _. split; [reflexivity|]. cbn [success nit nfev x fun_ length].
    repeat split; try lia; [now left|lra|constructor].
  - unfold bind.
    destruct (objective (candidate S_ st) w) as [[e|v] w1]; [discriminate Hrun|].
    destruct (Rlt_dec v best_f) as [Hlt|Hge].
    + destruct (IH (observe S_ st (candidate S_ st) v) (candidate S_ st) v
                   (S evals) (S its) w1 Hrun)
        as (res & w' & E & Hs & Hi & He & Hin & Hle & Hall).
      exists res, w'. cbn [length]. repeat split; try assumption; try lia.
      * right. destruct Hin as [Hin|Hin]; [left; now symmetry|now right].
      * lra.
      * constructor; assumption.
    + destruct (IH (observe S_ st (candidate S_ st) v) best_x best_f
                   (S evals) (S its) w1 Hrun)
        as (res & w' & E & Hs & Hi & He & Hin & Hle & Hall).
      exists res, w'. cbn [length]. repeat split; try assumption; try lia.
      * destruct Hin as [Hin|Hin]; [now left|right; now right].
      * constructor; [cbn [snd]; lra|assumption].
Qed.

(** C9.  When the optimiser fails to converge within its budget on a run
    (the convergence test of the strategy fails each time this run makes
    it, whatever the strategy would do on other runs, and the objective
    returns at the points tried), [minimize] raises nothing.  It returns a
    record with [success = false] and the iteration count at the cap; [nfev]
    is the number of evaluations the run made; [x] is one of the points
    evaluated, [fun] the value found there, and no evaluation of the run,
    the one at the start point included, gave a lower value. *)
Theorem minimize_reports_nonconvergence
        (B : Backend) (S_ : Strategy) (objective : list R -> M B R)
        (x0 : list R) (w : world B) :
  fails_to_converge B S_ objective x0 w = true ->
  exists res w',
    minimize B S_ objective x0 w = (inr res, w') /\
    success res = false /\
    nit res = maxiter S_ /\
    nfev res = length (evaluations B S_ objective x0 w) /\
    In (x res, fun_ res) (evaluations B S_ objective x0 w) /\
    Forall (fun pv => fun_ res <= snd pv) (evaluations B S_ objective x0 w).
Proof.
  unfold fails_to_converge, evaluations, minimize, bind.
  destruct (objective x0 w) as [[e|f0] w1]; [discriminate|]. intros Hrun.
  destruct (iterate_spends B S_ objective (maxiter S_) (start S_ x0 f0) x0 f0
              1%nat 0%nat w1 Hrun)
    as (res & w' & E & Hs & Hi & He & Hin & Hle & Hall).
  exists res, w'. cbn [length]. repeat split; try assumption; try lia.
  - destruct Hin as [Hin|Hin]; [left; now symmetry|now right].
  - constructor; [cbn [snd]; lra|assumption].
Qed.

Lemma lecture_origin (w : world statevector_simulator) :
  Lecture.evaluate_hamiltonian 2 1 statevector_simulator [0; 0] (Lecture.Hc 2) w =
  (inr 0, @mkWorld statevector_simulator (rng w) (S (oracle_calls w))).
Proof.
  rewrite lecture_evaluate_ok by (simpl; lia).
  change (Nat.div (length [0; 0]) 2) with 1%nat. cbn [firstn skipn].
  unfold measured, lecture_preparation, apply_in_order, evolution.
  cbn [combine rev app flat_map fold_left expectation exp_i statevector_simulator].
  rewrite lecture_init_2, lecture_landscape. cbn [fst snd].
  replace (4 * 0) with 0 by ring. rewrite sin_0.
  replace (- (0 * sin (2 * 0))) with 0 by ring. reflexivity.
Qed.

Lemma minimize_reports_nonconvergence_witness :
  exists res w',
    Lecture.optimize 2 1 statevector_simulator (threshold [0; 0] (- (1 / 2)) 3) [0] [0] w0 =
      (inr res, w') /\
    success res = false /\
    nit res = 3%nat /\
    nfev res =
      length (evaluations statevector_simulator (threshold [0; 0] (- (1 / 2)) 3)
                (fun bg => Lecture.evaluate_hamiltonian 2 1 statevector_simulator bg
                             (Lecture.Hc 2))
                [0; 0] w0) /\
    In (x res, fun_ res)
       (evaluations statevector_simulator (threshold [0; 0] (- (1 / 2)) 3)
          (fun bg => Lecture.evaluate_hamiltonian 2 1 statevector_simulator bg (Lecture.Hc 2))
          [0; 0] w0) /\
    Forall (fun pv => fun_ res <= snd pv)
       (evaluations statevector_simulator (threshold [0; 0] (- (1 / 2)) 3)
          (fun bg => Lecture.evaluate_hamiltonian 2 1 statevector_simulator bg (Lecture.Hc 2))
          [0; 0] w0).
Proof.
  apply (minimize_reports_nonconvergence statevector_simulator
           (threshold [0; 0] (- (1 / 2)) 3)
           (fun bg => Lecture.evaluate_hamiltonian 2 1 statevector_simulator bg (Lecture.Hc 2))
           [0; 0] w0).
  unfold fails_to_converge. rewrite lecture_origin.
  cbn [maxiter threshold start].
  repeat (cbn [budget_spent converged candidate observe threshold];
          rewrite ?lecture_origin;
          destruct (Rlt_dec 0 (- (1 / 2))) as [Hlt|_]; [lra|]; cbn [negb andb]).
  reflexivity.
Defined.

(** ** The variational bound *)

Lemma unit4_rotation (theta : R) (P : Pauli) (psi : vector) :
  two_qubit_pauli P -> unit4 psi -> unit4 (pauli_rotation theta P psi).
Proof.
  intros HP (a & b & c & d & -> & Hn).
  pose proof (sin2_cos2 theta) as E. unfold Rsqr in E.
  destruct HP as [->|[->|[->|[->| ->]]]];
    [rewrite rotation_II|rewrite rotation_X0|rewrite rotation_X1
     |rewrite rotation_Z0|rewrite rotation_Z0Z1];
    eexists _, _, _, _; (split; [reflexivity|]);
    destruct a as [ar ai], b as [br bi], c as [cr ci], d as [dr di];
    revert Hn; cbv [mix Cnorm2 Cadd Cscale Cmul Copp fst snd]; intros Hn;
    match goal with
    | |- ?lhs = 1 =>
        transitivity ((sin theta * sin theta + cos theta * cos theta) *
                      (ar * ar + ai * ai + (br * br + bi * bi) +
                       (cr * cr + ci * ci) + (dr * dr + di * di)));
        [ring|rewrite E, Hn; ring]
    end.
Qed.

Lemma two_qubit_scale (t : R) (H : Operator) :
  two_qubit_operator H -> two_qubit_operator (Operator_scale t H).
Proof.
  unfold two_qubit_operator, Operator_scale. intros HH.
  apply Forall_map. revert HH. apply Forall_impl. intros [c P] HP. exact HP.
Qed.

Lemma unit4_exp_i (H : Operator) (psi : vector) :
  two_qubit_operator H -> unit4 psi -> unit4 (exp_i_sv H psi).
Proof.
  unfold exp_i_sv. intros HH; revert psi.
  induction HH as [|t H Ht _ IH]; intros psi Hpsi; [assumption|].
  cbn [fold_left]. apply IH. now apply unit4_rotation.
Qed.

Lemma unit4_evolution (H : Operator) (t : R) (psi : vector) :
  two_qubit_operator H -> unit4 psi -> unit4 (evolution statevector_simulator H t psi).
Proof. intros HH Hpsi. apply unit4_exp_i; [now apply two_qubit_scale|assumption]. Qed.

Lemma unit4_evolution_termwise (H : Operator) (t : R) (psi : vector) :
  two_qubit_operator H -> unit4 psi ->
  unit4 (evolution_termwise statevector_simulator H t psi).
Proof.
  unfold evolution_termwise. intros HH; revert psi.
  induction HH as [|term H Ht _ IH]; intros psi Hpsi; [assumption|].
  cbn [fold_left]. apply IH.
  apply unit4_exp_i; [|assumption].
  apply two_qubit_scale. constructor; [assumption|constructor].
Qed.

Lemma unit4_apply_in_order (steps : list (vector -> vector)) (psi : vector) :
  Forall (fun step => forall s, unit4 s -> unit4 (step s)) steps ->
  unit4 psi -> unit4 (apply_in_order statevector_simulator steps psi).
Proof.
  unfold apply_in_order. intros Hall; revert psi.
  induction Hall as [|step steps Hstep _ IH]; intros psi Hpsi; [assumption|].
  cbn [fold_left]. apply IH, Hstep, Hpsi.
Qed.

Lemma two_qubit_Hm : two_qubit_operator (Assignment.Hm_solution 2).
Proof.
  rewrite assignment_Hm_2. repeat constructor; unfold two_qubit_pauli; cbn [snd]; tauto.
Qed.

Lemma two_qubit_Hc : two_qubit_operator (Assignment.Hc_solution 2).
Proof.
  rewrite assignment_Hc_2. repeat constructor; unfold two_qubit_pauli; cbn [snd]; tauto.
Qed.

Lemma unit4_uniform : unit4 [half; half; half; half].
Proof.
  exists half, half, half, half. split; [reflexivity|].
  unfold half, RtoC, Cnorm2. cbn [fst snd]. field.
Qed.

Lemma solution_initial_state (k : Assignment.sdk) :
  initial_state 2 statevector_simulator (Assignment.circuit_init_solution k 2) =
  [half; half; half; half].
Proof. destruct k; cbn; apply uniform_2. Qed.

Lemma unit4_solution_preparation (k : Assignment.sdk) (beta gamma : list R) :
  unit4 (assignment_preparation 2 statevector_simulator
           (Assignment.Hm_solution 2) (Assignment.Hc_solution 2)
           (Assignment.circuit_init_solution k 2) beta gamma).
Proof.
  pose proof (solution_initial_state k) as Hinit.
  destruct k; cbn [assignment_preparation Assignment.circuit_init_solution] in *.
  - unfold qiskit_preparation.
    apply unit4_apply_in_order; [|rewrite Hinit; apply unit4_uniform].
    apply Forall_forall; intros step Hin.
    apply in_flat_map in Hin. destruct Hin as (bg & _ & Hstep).
    destruct Hstep as [<-|[<-|[]]]; intros s Hs.
    + apply unit4_evolution; [apply two_qubit_Hc|assumption].
    + apply unit4_evolution; [apply two_qubit_Hm|assumption].
  - unfold pyquil_preparation.
    apply unit4_apply_in_order; [|rewrite Hinit; apply unit4_uniform].
    apply Forall_forall; intros step Hin.
    apply in_flat_map in Hin. destruct Hin as (bg & _ & Hstep).
    destruct Hstep as [<-|[<-|[]]]; intros s Hs.
    + apply unit4_evolution_termwise; [apply two_qubit_Hm|assumption].
    + apply unit4_evolution_termwise; [apply two_qubit_Hc|assumption].
Qed.

Lemma solution_energy_bound (psi : vector) :
  unit4 psi -> -1.5 <= Cre (expectation_sv (Assignment.Hc_solution 2) psi).
Proof.
  intros (a & b & c & d & -> & Hn). rewrite assignment_Hc_expectation.
  assert (Hpos : forall z : C, 0 <= Cnorm2 z) by (intros [zr zi]; unfold Cnorm2; simpl; nra).
  pose proof (Hpos a). pose proof (Hpos b). pose proof (Hpos c). pose proof (Hpos d). lra.
Qed.

Lemma solution_objective_bound (k : Assignment.sdk) (p : nat) (x : list R)
      (w : world statevector_simulator) :
  (0 < p)%nat -> (p <= length x / 2)%nat ->
  exists v w',
    Assignment.evaluate_circuit 2 p statevector_simulator
      (Assignment.Hm_solution 2) (Assignment.Hc_solution 2)
      (Assignment.circuit_init_solution k 2) x w = (inr v, w') /\
    -1.5 <= v.
Proof.
  intros Hpos Hp. rewrite assignment_evaluate_ok by (auto using solution_setup).
  unfold measured. cbn [expectation statevector_simulator].
  eexists _, _. split; [reflexivity|].
  apply solution_energy_bound, unit4_solution_preparation.
Qed.

(** C4.  On the exact simulator, with the cost Hamiltonian
    [-Z0 Z1 - 0.5 Z0] of the assignment and any depth [p >= 1], every run of
    the optimiser from a start vector of length [2p], under any strategy
    whose candidates have that length, returns a record whose [fun] is at
    least the ground energy [-1.5]. *)
Theorem variational_bound
        (k : Assignment.sdk) (p : nat) (method : Strategy) (beta gamma : list R)
        (w : world statevector_simulator) :
  (0 < p)%nat ->
  length beta = p -> length gamma = p ->
  (forall st, length (candidate method st) = (2 * p)%nat) ->
  exists res w',
    Assignment.optimize 2 p statevector_simulator
      (Assignment.Hm_solution 2) (Assignment.Hc_solution 2)
      (Assignment.circuit_init_solution k 2) method beta gamma w = (inr res, w') /\
    -1.5 <= fun_ res.
Proof.
  intros Hpos Hb Hg Hcand. unfold Assignment.optimize, minimize, bind.
  destruct (solution_objective_bound k p (beta ++ gamma) w Hpos) as (f0 & w1 & -> & Hf0).
  { destruct (half_concat beta gamma) as (Hh & _); [congruence|]. lia. }
  destruct (iterate_returns statevector_simulator method
              (Assignment.evaluate_circuit 2 p statevector_simulator
                 (Assignment.Hm_solution 2) (Assignment.Hc_solution 2)
                 (Assignment.circuit_init_solution k 2))
              (fun _ => True) (fun v => -1.5 <= v))
    with (fuel := maxiter method) (st := start method (beta ++ gamma) f0)
         (best_x := beta ++ gamma) (best_f := f0) (evals := 1%nat) (its := 0%nat) (w := w1)
    as (res & w' & E & Hres & _).
  - intros; exact I.
  - intros st w2 _. apply solution_objective_bound; [assumption|].
    rewrite Hcand, Nat.mul_comm, Nat.div_mul by discriminate. lia.
  - exact I.
  - assumption.
  - now exists res, w'.
Qed.

Lemma variational_bound_witness :
  exists res w',
    Assignment.optimize 2 2 statevector_simulator
      (Assignment.Hm_solution 2) (Assignment.Hc_solution 2)
      (Assignment.circuit_init_solution Assignment.UseQiskit 2)
      (stubborn [1; 2; 3; 4] 5) [1; 2] [3; 4] w0 = (inr res, w') /\
    -1.5 <= fun_ res.
Proof.
  apply (variational_bound Assignment.UseQiskit 2 (stubborn [1; 2; 3; 4] 5) [1; 2] [3; 4] w0).
  - lia.
  - reflexivity.
  - reflexivity.
  - intros st. reflexivity.
Defined.

(** ** The landscape of the assignment at depth 1 *)

Lemma assignment_Hm_evolve (t : R) (a b c d : C) :
  exp_i_sv (Operator_scale t (Assignment.Hm_solution 2)) [a; b; c; d] =
  pauli_rotation t X1 (pauli_rotation t X0 [a; b; c; d]).
Proof.
  rewrite assignment_Hm_2. cbn [exp_i_sv Operator_scale map fold_left fst snd].
  replace (t * 1) with t by ring. reflexivity.
Qed.

Lemma assignment_Hc_evolve (t : R) (a b c d : C) :
  exp_i_sv (Operator_scale t (Assignment.Hc_solution 2)) [a; b; c; d] =
  pauli_rotation (- (t / 2)) Z0 (pauli_rotation (- t) Z0Z1 [a; b; c; d]).
Proof.
  rewrite assignment_Hc_2. cbn [exp_i_sv Operator_scale map fold_left fst snd].
  replace (t * -1) with (- t) by ring.
  replace (t * -0.5) with (- (t / 2)) by lra. reflexivity.
Qed.

Lemma assignment_landscape (b g : R) :
  Cre (expectation_sv (Assignment.Hc_solution 2)
         (exp_i_sv (Operator_scale b (Assignment.Hm_solution 2))
            (exp_i_sv (Operator_scale g (Assignment.Hc_solution 2))
               [half; half; half; half]))) =
  cos (2 * b) * sin (2 * b) * sin (2 * g) * (1 + cos g)
  + 1 / 2 * sin (2 * b) * cos (2 * g) * sin g.
Proof.
  rewrite assignment_Hc_evolve, rotation_Z0Z1, rotation_Z0.
  rewrite assignment_Hm_evolve, rotation_X0, rotation_X1.
  rewrite assignment_Hc_expectation.
  rewrite (sin_2a b), (cos_2a b), (sin_2a g), (cos_2a g).
  cbv [mix Cnorm2 Cadd Cscale Cmul Copp half RtoC fst snd].
  rewrite !cos_neg, !sin_neg.
  replace (cos g) with (cos (2 * (g / 2))) by (f_equal; field).
  replace (sin g) with (sin (2 * (g / 2))) by (f_equal; field).
  rewrite (sin_2a (g / 2)), (cos_2a (g / 2)).
  pose proof (sin2_cos2 b) as Eb. pose proof (sin2_cos2 (g / 2)) as Eh.
  unfold Rsqr in Eb, Eh.
  generalize dependent (cos b). generalize dependent (sin b).
  generalize dependent (cos (g / 2)). generalize dependent (sin (g / 2)).
  intros sh ch Eh sb cb Eb.
  transitivity
    ((cb * cb - sb * sb) * (2 * sb * cb)
     * (2 * (2 * sh * ch) * (ch * ch - sh * sh))
     * ((sh * sh + ch * ch) + (ch * ch - sh * sh))
     + 1 / 2 * (2 * sb * cb) * (sb * sb + cb * cb)
       * ((ch * ch - sh * sh) * (ch * ch - sh * sh) - 2 * sh * ch * (2 * sh * ch))
       * (2 * sh * ch)).
  - field.
  - rewrite Eb, Eh. field.
Qed.

Lemma assignment_flat (b g : R) :
  Cre (expectation_sv (Assignment.Hc_solution 2)
         (exp_i_sv (Operator_scale g (Assignment.Hc_solution 2))
            (exp_i_sv (Operator_scale b (Assignment.Hm_solution 2))
               [half; half; half; half]))) = 0.
Proof.
  rewrite assignment_Hm_evolve, rotation_X0, rotation_X1.
  rewrite assignment_Hc_evolve, rotation_Z0Z1, rotation_Z0.
  rewrite assignment_Hc_expectation.
  cbv [mix Cnorm2 Cadd Cscale Cmul Copp half RtoC fst snd].
  field.
Qed.

Lemma sv_termwise (H : Operator) (t : R) (psi : vector) :
  evolution_termwise statevector_simulator H t psi =
  evolution statevector_simulator H t psi.
Proof.
  unfold evolution_termwise, evolution. cbn [exp_i statevector_simulator].
  unfold exp_i_sv. revert psi.
  induction H as [|term H IH]; intros psi; [reflexivity|].
  cbn [fold_left Operator_scale map]. apply IH.
Qed.

Lemma sv_evolution_zero (H : Operator) (psi : vector) :
  evolution statevector_simulator H 0 psi = psi.
Proof. apply exp_i_sv_zero. Qed.

Lemma sv_evolution_opp_zero (H : Operator) (psi : vector) :
  evolution statevector_simulator H (- 0) psi = psi.
Proof. rewrite Ropp_0. apply exp_i_sv_zero. Qed.

Lemma inr_neq (u v : R) : u <> v -> @inr exn R u <> inr v.
Proof. intros Hneq E. injection E. exact Hneq. Qed.

(** C7.  At depth 2, on the exact simulator, the objective is not
    invariant under the exchange of the two [(beta_i, gamma_i)] pairs: for
    the lecture notebook and for either branch of the assignment there is a
    parameter vector whose value changes when the pairs are exchanged. *)
Theorem pair_order_matters :
  (exists bg,
     length bg = 4%nat /\
     fst (Lecture.evaluate_hamiltonian 2 2 statevector_simulator bg (Lecture.Hc 2) w0) <>
     fst (Lecture.evaluate_hamiltonian 2 2 statevector_simulator (swap_pairs bg)
            (Lecture.Hc 2) w0))
  /\
  (forall k,
     exists bg,
       length bg = 4%nat /\
       fst (Assignment.evaluate_circuit 2 2 statevector_simulator
              (Assignment.Hm_solution 2) (Assignment.Hc_solution 2)
              (Assignment.circuit_init_solution k 2) bg w0) <>
       fst (Assignment.evaluate_circuit 2 2 statevector_simulator
              (Assignment.Hm_solution 2) (Assignment.Hc_solution 2)
              (Assignment.circuit_init_solution k 2) (swap_pairs bg) w0)).
Proof.
  split.
  - exists [PI / 8; 0; 0; PI / 4]. split; [reflexivity|].
    cbn [swap_pairs].
    rewrite !lecture_evaluate_ok by (simpl; lia).
    rewrite !measured_value.
    change (Nat.div (length [PI / 8; 0; 0; PI / 4]) 2) with 2%nat.
    change (Nat.div (length [0; PI / 8; PI / 4; 0]) 2) with 2%nat.
    cbn [firstn skipn]. unfold lecture_preparation, apply_in_order.
    cbn [combine rev app flat_map fold_left fst snd].
    rewrite !sv_evolution_zero. unfold evolution.
    cbn [expectation exp_i statevector_simulator fst].
    rewrite lecture_init_2, lecture_landscape, lecture_flat, sin_PI2_4, sin_PI2_2.
    apply inr_neq. lra.
  - intros k.
    assert (Hh : sin (2 * (PI / 4)) = 1 /\ cos (2 * (PI / 4)) = 0 /\
                 sin (2 * (PI / 2)) = 0 /\ cos (2 * (PI / 2)) = -1 /\
                 sin (PI / 2) = 1 /\ cos (PI / 2) = 0).
    { replace (2 * (PI / 4)) with (PI / 2) by field.
      replace (2 * (PI / 2)) with PI by field.
      repeat split;
        [apply sin_PI2|apply cos_PI2|apply sin_PI|apply cos_PI|apply sin_PI2|apply cos_PI2]. }
    destruct Hh as (E1 & E2 & E3 & E4 & E5 & E6).
    pose proof (solution_initial_state k) as Hinit.
    destruct k.
    + exists [PI / 2; 0; 0; PI / 4]. split; [reflexivity|].
      cbn [swap_pairs].
      rewrite !assignment_evaluate_ok by (try apply solution_setup; simpl; lia).
      rewrite !measured_value.
      change (Nat.div (length [PI / 2; 0; 0; PI / 4]) 2) with 2%nat.
      change (Nat.div (length [0; PI / 2; PI / 4; 0]) 2) with 2%nat.
      cbn [firstn skipn assignment_preparation Assignment.circuit_init_solution] in *.
      unfold qiskit_preparation, apply_in_order.
      cbn [combine app flat_map fold_left fst snd].
      rewrite !sv_evolution_zero, Hinit. unfold evolution.
      cbn [expectation exp_i statevector_simulator fst].
      rewrite assignment_landscape, assignment_flat, E1, E2, E3, E4, E5, E6.
      apply inr_neq. lra.
    + exists [0; - (PI / 4); - (PI / 2); 0]. split; [reflexivity|].
      cbn [swap_pairs].
      rewrite !assignment_evaluate_ok by (try apply solution_setup; simpl; lia).
      rewrite !measured_value.
      change (Nat.div (length [0; - (PI / 4); - (PI / 2); 0]) 2) with 2%nat.
      change (Nat.div (length [- (PI / 4); 0; 0; - (PI / 2)]) 2) with 2%nat.
      cbn [firstn skipn assignment_preparation Assignment.circuit_init_solution] in *.
      unfold pyquil_preparation, apply_in_order.
      cbn [combine app flat_map fold_left fst snd].
      rewrite !sv_termwise, !sv_evolution_opp_zero, !Ropp_involutive, Hinit.
      unfold evolution.
      cbn [expectation exp_i statevector_simulator fst].
      rewrite assignment_landscape, assignment_flat, E1, E2, E3, E4, E5, E6.
      apply inr_neq. lra.
Qed.

(** ** The Hamiltonians as matrices *)

Ltac matrix_entries :=
  cbv [Operator_to_matrix fold_left map seq app repeat Nat.eqb length nth
       Pauli_to_matrix combine pauli_z_bits pauli_x_bits pauli_block bmat
       mat_scale mat_add mat_zero Nat.pow Nat.mul Nat.add fst snd
       real_matrix diag_matrix X0 X1 Z0 Z0Z1 II];
  repeat (f_equal; try (apply C_eq; cbv [RtoC Cadd Cmul Copp Czero Cone Cimag fst snd]; lra)).

(** C2.  For [n_qubits = 2] the sum of the two single-qubit X operators
    built with [pauli_x] has the matrix [[0,1,1,0],[1,0,0,1],[1,0,0,1],[0,1,1,0]],
    and [-Z0 Z1 - 0.5 Z0] built with [product_pauli_z] and [pauli_z] is
    diagonal with entries [-1.5, 1.5, 0.5, -0.5]. *)
Theorem hamiltonian_fixtures :
  Operator_to_matrix 2 (Assignment.Hm_solution 2) =
    real_matrix [[0; 1; 1; 0]; [1; 0; 0; 1]; [1; 0; 0; 1]; [0; 1; 1; 0]]
  /\
  Operator_to_matrix 2 (Assignment.Hc_solution 2) =
    diag_matrix [-1.5; 1.5; 0.5; -0.5].
Proof.
  rewrite assignment_Hm_2, assignment_Hc_2. split; matrix_entries.
Qed.

(** The lecture notebook weighs each X by [-1]; its cells print the two
    matrices below. *)
Lemma lecture_matrices :
  Operator_to_matrix 2 (Lecture.Hm 2) =
    real_matrix [[0; -1; -1; 0]; [-1; 0; 0; -1]; [-1; 0; 0; -1]; [0; -1; -1; 0]]
  /\
  Operator_to_matrix 2 (Lecture.Hc 2) = diag_matrix [-1; 1; 1; -1].
Proof.
  rewrite lecture_Hm_2, lecture_Hc_2. split; matrix_entries.
Qed.

(** The optimum the lecture notebook records, [fun = -1] at
    [x = (1.963, 3.927) = (5 pi / 8, 5 pi / 4)]. *)
Lemma lecture_recorded_optimum (w : world statevector_simulator) :
  fst (Lecture.evaluate_hamiltonian 2 1 statevector_simulator
         [5 * PI / 8; 5 * PI / 4] (Lecture.Hc 2) w) = inr (-1).
Proof.
  rewrite lecture_depth1.
  replace (4 * (5 * PI / 8)) with (PI / 2 + 2 * INR 1 * PI) by (simpl; field).
  replace (2 * (5 * PI / 4)) with (PI / 2 + 2 * INR 1 * PI) by (simpl; field).
  rewrite sin_period, sin_PI2. f_equal. ring.
Qed.

(** * Further properties of the notebooks *)

(** ** The lecture's landscape on two qubits *)

Lemma two_qubit_lecture_Hm : two_qubit_operator (Lecture.Hm 2).
Proof.
  rewrite lecture_Hm_2. repeat constructor; unfold two_qubit_pauli; cbn [snd]; tauto.
Qed.

Lemma two_qubit_lecture_Hc : two_qubit_operator (Lecture.Hc 2).
Proof.
  rewrite lecture_Hc_2. repeat constructor; unfold two_qubit_pauli; cbn [snd]; tauto.
Qed.

Lemma unit4_lecture_preparation (beta gamma : list R) :
  unit4 (lecture_preparation statevector_simulator (Lecture.Hm 2) (Lecture.Hc 2)
           beta gamma (Lecture.state_of statevector_simulator (Lecture.init_state 2))).
Proof.
  unfold lecture_preparation.
  apply unit4_apply_in_order; [|rewrite lecture_init_2; apply unit4_uniform].
  apply Forall_forall; intros step Hin.
  apply in_flat_map in Hin. destruct Hin as (bg & _ & Hstep).
  destruct Hstep as [<-|[<-|[]]]; intros s Hs.
  - apply unit4_evolution; [apply two_qubit_lecture_Hc|assumption].
  - apply unit4_evolution; [apply two_qubit_lecture_Hm|assumption].
Qed.

Lemma Cnorm2_nonneg (z : C) : 0 <= Cnorm2 z.
Proof. destruct z as [zr zi]. unfold Cnorm2. simpl. nra. Qed.

(** X1.  At depth 1 the objective of the lecture notebook, on the exact
    simulator, is [-sin(4 beta) sin(2 gamma)] at every point
    [(beta, gamma)]. *)
Theorem lecture_landscape_depth1 (b g : R) (w : world statevector_simulator) :
  Lecture.evaluate_hamiltonian 2 1 statevector_simulator [b; g] (Lecture.Hc 2) w =
  (inr (- (sin (4 * b) * sin (2 * g))),
   @mkWorld statevector_simulator (rng w) (S (oracle_calls w))).
Proof.
  rewrite lecture_evaluate_ok by (simpl; lia).
  change (Nat.div (length [b; g]) 2) with 1%nat. cbn [firstn skipn].
  unfold measured, lecture_preparation, apply_in_order, evolution.
  cbn [combine rev app flat_map fold_left expectation exp_i statevector_simulator].
  rewrite lecture_init_2, lecture_landscape. reflexivity.
Qed.

(** X2.  At every depth and for every parameter vector the circuit can be
    built from, the objective of the lecture notebook lies between the
    extreme eigenvalues [-1] and [1] of its cost Hamiltonian; the value
    [-1] the notebook records is the floor. *)
Theorem lecture_energy_range (p : nat) (bg : list R) (w : world statevector_simulator) :
  (p <= length bg / 2)%nat ->
  exists v w',
    Lecture.evaluate_hamiltonian 2 p statevector_simulator bg (Lecture.Hc 2) w = (inr v, w') /\
    -1 <= v <= 1.
Proof.
  intros Hp. rewrite lecture_evaluate_ok by assumption.
  unfold measured. cbn [expectation statevector_simulator].
  eexists _, _. split; [reflexivity|].
  destruct (unit4_lecture_preparation
              (firstn p (firstn (length bg / 2) bg)) (firstn p (skipn (length bg / 2) bg)))
    as (a & b & c & d & -> & Hn).
  rewrite lecture_Hc_expectation.
  pose proof (Cnorm2_nonneg a). pose proof (Cnorm2_nonneg b).
  pose proof (Cnorm2_nonneg c). pose proof (Cnorm2_nonneg d). lra.
Qed.

Lemma lecture_energy_range_witness :
  exists v w',
    Lecture.evaluate_hamiltonian 2 2 statevector_simulator [1; 2; 3; 4] (Lecture.Hc 2) w0 =
    (inr v, w') /\
    -1 <= v <= 1.
Proof.
  apply (lecture_energy_range 2 [1; 2; 3; 4] w0). simpl. lia.
Defined.

(** ** The spin-flip symmetry of the lecture's circuit *)

Lemma flip_symmetric_rotation (theta : R) (P : Pauli) (psi : vector) :
  P = II \/ P = X0 \/ P = X1 \/ P = Z0Z1 ->
  flip_symmetric psi -> flip_symmetric (pauli_rotation theta P psi).
Proof.
  intros HP (a & b & -> & Hn).
  pose proof (sin2_cos2 theta) as E. unfold Rsqr in E.
  destruct HP as [->|[->|[->| ->]]];
    [rewrite rotation_II|rewrite rotation_X0|rewrite rotation_X1|rewrite rotation_Z0Z1];
    eexists _, _; (split; [reflexivity|]);
    destruct a as [ar ai], b as [br bi];
    revert Hn; cbv [mix Cnorm2 Cadd Cscale Cmul Copp fst snd]; intros Hn;
    match goal with
    | |- ?lhs = 1 =>
        transitivity ((sin theta * sin theta + cos theta * cos theta) *
                      (2 * (ar * ar + ai * ai + (br * br + bi * bi))));
        [ring|rewrite E, Hn; ring]
    end.
Qed.

Lemma flip_symmetric_exp_i (H : Operator) (psi : vector) :
  Forall (fun t => snd t = II \/ snd t = X0 \/ snd t = X1 \/ snd t = Z0Z1) H ->
  flip_symmetric psi -> flip_symmetric (exp_i_sv H psi).
Proof.
  unfold exp_i_sv. intros HH; revert psi.
  induction HH as [|t H Ht _ IH]; intros psi Hpsi; [assumption|].
  cbn [fold_left]. apply IH. now apply flip_symmetric_rotation.
Qed.

Lemma flip_symmetric_evolution (H : Operator) (t : R) (psi : vector) :
  H = Lecture.Hm 2 \/ H = Lecture.Hc 2 ->
  flip_symmetric psi -> flip_symmetric (evolution statevector_simulator H t psi).
Proof.
  intros HH Hpsi. apply flip_symmetric_exp_i; [|assumption].
  unfold Operator_scale. apply Forall_map.
  destruct HH as [-> | ->]; [rewrite lecture_Hm_2|rewrite lecture_Hc_2];
    repeat constructor; cbn [snd]; tauto.
Qed.

Lemma flip_symmetric_uniform : flip_symmetric [half; half; half; half].
Proof.
  exists half, half. split; [reflexivity|].
  unfold half, RtoC, Cnorm2. cbn [fst snd]. field.
Qed.

Lemma flip_symmetric_lecture_preparation (beta gamma : list R) :
  flip_symmetric
    (lecture_preparation statevector_simulator (Lecture.Hm 2) (Lecture.Hc 2)
       beta gamma (Lecture.state_of statevector_simulator (Lecture.init_state 2))).
Proof.
  unfold lecture_preparation, apply_in_order. rewrite lecture_init_2.
  generalize (rev (combine beta gamma)) as l.
  generalize flip_symmetric_uniform. generalize [half; half; half; half] as psi.
  intros psi Hpsi l. revert psi Hpsi.
  induction l as [|bg l IH]; intros psi Hpsi; [assumption|].
  cbn [flat_map app fold_left]. apply IH.
  apply flip_symmetric_evolution; [now left|].
  apply flip_symmetric_evolution; [now right|assumption].
Qed.

Lemma single_Z_expectation (a b c d : C) :
  Cre (expectation_sv [(1, Z0)] [a; b; c; d]) =
    Cnorm2 a - Cnorm2 b + Cnorm2 c - Cnorm2 d
  /\
  Cre (expectation_sv [(1, Z1)] [a; b; c; d]) =
    Cnorm2 a + Cnorm2 b - Cnorm2 c - Cnorm2 d.
Proof.
  destruct a, b, c, d. split;
    cbv [expectation_sv inner Pauli_to_matrix pauli_z_bits pauli_x_bits combine fold_left
         pauli_block bmat map app mat_vec dot Csum fold_right Z0 Z1 Cre Cnorm2
         Cadd Cscale Cmul Copp Cconj Czero Cone Cimag fst snd];
    ring.
Qed.

(** X3.  At every depth and for every parameter vector the circuit can be
    built from, the state the lecture notebook prepares gives expectation
    exactly [0] to [Z0 = pauli_z(0, 1)] and to [Z1 = pauli_z(1, 1)], the two
    values its last cell prints. *)
Theorem lecture_single_spin_expectations
        (p : nat) (bg : list R) (w : world statevector_simulator) :
  (p <= length bg / 2)%nat ->
  fst (Lecture.evaluate_hamiltonian 2 p statevector_simulator bg [Lecture.pauli_z 2 0 1] w)
    = inr 0
  /\
  fst (Lecture.evaluate_hamiltonian 2 p statevector_simulator bg [Lecture.pauli_z 2 1 1] w)
    = inr 0.
Proof.
  intros Hp. rewrite !lecture_evaluate_ok by assumption.
  unfold measured. cbn [expectation statevector_simulator fst].
  destruct (flip_symmetric_lecture_preparation
              (firstn p (firstn (length bg / 2) bg)) (firstn p (skipn (length bg / 2) bg)))
    as (a & b & -> & Hn).
  change (Lecture.pauli_z 2 0 1) with (1, Z0).
  change (Lecture.pauli_z 2 1 1) with (1, Z1).
  destruct (single_Z_expectation a b b a) as [-> ->].
  split; f_equal; ring.
Qed.

Lemma lecture_single_spin_expectations_witness :
  fst (Lecture.evaluate_hamiltonian 2 1 statevector_simulator [1; 2] [Lecture.pauli_z 2 0 1] w0)
    = inr 0
  /\
  fst (Lecture.evaluate_hamiltonian 2 1 statevector_simulator [1; 2] [Lecture.pauli_z 2 1 1] w0)
    = inr 0.
Proof.
  apply (lecture_single_spin_expectations 1 [1; 2] w0). simpl. lia.
Defined.

Lemma lecture_circuit_state (p : nat) (beta gamma : list R) (circuit : Lecture.OperatorBase) :
  Lecture.create_circuit 2 p beta gamma = inr circuit ->
  Lecture.state_of statevector_simulator circuit =
  lecture_preparation statevector_simulator (Lecture.Hm 2) (Lecture.Hc 2)
    (firstn p beta) (firstn p gamma)
    (Lecture.state_of statevector_simulator (Lecture.init_state 2)).
Proof.
  intros E.
  destruct (Nat.le_gt_cases p (length beta)) as [Hb|Hb];
    [|rewrite lecture_create_circuit_fail in E by (left; lia); discriminate].
  destruct (Nat.le_gt_cases p (length gamma)) as [Hg|Hg];
    [|rewrite lecture_create_circuit_fail in E by (right; lia); discriminate].
  rewrite lecture_create_circuit_ok in E by assumption.
  injection E as <-.
  rewrite lecture_state_of_steps, lecture_fold. reflexivity.
Qed.

Lemma inr_inj (u v : R) : @inr exn R u = inr v -> u = v.
Proof. intros E. congruence. Qed.

Lemma Cnorm2_zero (z : C) : Cnorm2 z = 0 -> z = Czero.
Proof.
  destruct z as [zr zi]. unfold Cnorm2, Czero. cbn [fst snd]. intros E.
  f_equal; nra.
Qed.

(** X4.  Whenever a circuit built by the lecture's [create_circuit]
    reaches the energy [-1], its state is [a (|00> + |11>)] with
    [|a|^2 = 1/2]: the amplitudes [0.707, 0, 0, 0.707] with equal phases
    that the notebook prints for the optimum. *)
Theorem lecture_ground_state
        (p : nat) (beta gamma : list R) (circuit : Lecture.OperatorBase) :
  Lecture.create_circuit 2 p beta gamma = inr circuit ->
  Cre (expectation_sv (Lecture.Hc 2) (Lecture.state_of statevector_simulator circuit)) = -1 ->
  exists a,
    Lecture.state_of statevector_simulator circuit = [a; Czero; Czero; a] /\
    Cnorm2 a = 1 / 2.
Proof.
  intros Ecirc. rewrite (lecture_circuit_state p beta gamma circuit Ecirc).
  destruct (flip_symmetric_lecture_preparation (firstn p beta) (firstn p gamma))
    as (a & b & -> & Hn).
  rewrite lecture_Hc_expectation. intros Hen.
  pose proof (Cnorm2_nonneg a). pose proof (Cnorm2_nonneg b).
  assert (Hb : Cnorm2 b = 0) by lra.
  apply Cnorm2_zero in Hb. subst b.
  exists a. split; [reflexivity|].
  unfold Cnorm2 at 2 in Hn. unfold Czero in Hn. cbn [fst snd] in Hn. lra.
Qed.

Lemma lecture_ground_state_witness :
  exists a,
    Lecture.state_of statevector_simulator
      (Lecture.ComposedOp [lecture_step 2 (5 * PI / 8, 5 * PI / 4); Lecture.init_state 2]) =
    [a; Czero; Czero; a] /\
    Cnorm2 a = 1 / 2.
Proof.
  apply (lecture_ground_state 1 [5 * PI / 8] [5 * PI / 4]).
  - reflexivity.
  - pose proof (lecture_recorded_optimum w0) as E.
    rewrite lecture_evaluate_ok in E by (simpl; lia).
    unfold measured in E. cbn [expectation statevector_simulator fst] in E.
    apply inr_inj in E. rewrite <- E.
    rewrite (lecture_circuit_state 1 [5 * PI / 8] [5 * PI / 4]) by reflexivity.
    reflexivity.
Defined.

(** ** Whole turns of the parameters *)

Lemma trig_period_Z (x : R) (k : Z) :
  cos (x + 2 * IZR k * PI) = cos x /\ sin (x + 2 * IZR k * PI) = sin x.
Proof.
  destruct k as [|q|q].
  - replace (x + 2 * 0 * PI) with x by ring. split; reflexivity.
  - change (IZR (Z.pos q)) with (IPR q). rewrite <- INR_IPR.
    split; [apply cos_period|apply sin_period].
  - change (IZR (Z.neg q)) with (- IPR q). rewrite <- INR_IPR.
    pose proof (cos_period (x + 2 * - INR (Pos.to_nat q) * PI) (Pos.to_nat q)) as Ec.
    pose proof (sin_period (x + 2 * - INR (Pos.to_nat q) * PI) (Pos.to_nat q)) as Es.
    replace (x + 2 * - INR (Pos.to_nat q) * PI + 2 * INR (Pos.to_nat q) * PI)
      with x in Ec, Es by ring.
    split; congruence.
Qed.

Lemma pauli_rotation_trig (theta theta' : R) (P : Pauli) (psi : vector) :
  cos theta' = cos theta -> sin theta' = sin theta ->
  pauli_rotation theta' P psi = pauli_rotation theta P psi.
Proof. intros Ec Es. unfold pauli_rotation. now rewrite Ec, Es. Qed.

Lemma exp_i_sv_whole_turn (H : Operator) (x : R) (k : Z) (psi : vector) :
  integer_weights H ->
  exp_i_sv (Operator_scale (x + 2 * IZR k * PI) H) psi = exp_i_sv (Operator_scale x H) psi.
Proof.
  unfold exp_i_sv. intros HH; revert psi.
  induction HH as [|[c P] H [m Hm] _ IH]; intros psi; [reflexivity|].
  cbn [Operator_scale map fold_left fst snd] in *. subst c.
  rewrite (pauli_rotation_trig (x * IZR m) ((x + 2 * IZR k * PI) * IZR m)).
  - apply IH.
  - replace ((x + 2 * IZR k * PI) * IZR m) with (x * IZR m + 2 * IZR (k * m) * PI)
      by (rewrite mult_IZR; ring).
    apply trig_period_Z.
  - replace ((x + 2 * IZR k * PI) * IZR m) with (x * IZR m + 2 * IZR (k * m) * PI)
      by (rewrite mult_IZR; ring).
    apply trig_period_Z.
Qed.

Lemma integer_lecture_Hm (n_qubits : nat) : integer_weights (Lecture.Hm n_qubits).
Proof.
  unfold integer_weights, Lecture.Hm, Lecture.SummedOp.
  apply Forall_map, Forall_forall. intros i _. now exists (-1)%Z.
Qed.

Lemma nth_empty {A : Type} (j : nat) (d : A) : nth j [] d = d.
Proof. destruct j; reflexivity. Qed.

Lemma integer_J (i j : nat) : exists m : Z, - Lecture.J i j = IZR m.
Proof.
  unfold Lecture.J.
  destruct i as [|[|i]]; destruct j as [|[|j]]; cbn [nth];
    try destruct i; try destruct j; cbn [nth];
    first [exists 0%Z; apply Ropp_0 | exists (-1)%Z; reflexivity].
Qed.

Lemma integer_lecture_Hc (n_qubits : nat) : integer_weights (Lecture.Hc n_qubits).
Proof.
  unfold integer_weights, Lecture.Hc, Lecture.SummedOp.
  apply Forall_map, Forall_forall. intros [i j] _. cbn [fst snd]. apply integer_J.
Qed.

Lemma whole_turns_length (bg bg' : list R) : whole_turns bg bg' -> length bg = length bg'.
Proof. apply Forall2_length. Qed.

Lemma whole_turns_firstn (k : nat) (bg bg' : list R) :
  whole_turns bg bg' -> whole_turns (firstn k bg) (firstn k bg').
Proof.
  unfold whole_turns. intros H; revert k.
  induction H as [|x y l l' Hxy _ IH]; intros [|k]; cbn [firstn]; constructor; auto.
Qed.

Lemma whole_turns_skipn (k : nat) (bg bg' : list R) :
  whole_turns bg bg' -> whole_turns (skipn k bg) (skipn k bg').
Proof.
  unfold whole_turns. intros H; revert k.
  induction H as [|x y l l' Hxy Hl IH]; intros [|k]; cbn [skipn]; auto.
Qed.

Lemma lecture_preparation_whole_turns (n_qubits : nat) (beta beta' gamma gamma' : list R)
      (s0 : vector) :
  whole_turns beta beta' -> whole_turns gamma gamma' ->
  lecture_preparation statevector_simulator (Lecture.Hm n_qubits) (Lecture.Hc n_qubits)
    beta' gamma' s0 =
  lecture_preparation statevector_simulator (Lecture.Hm n_qubits) (Lecture.Hc n_qubits)
    beta gamma s0.
Proof.
  unfold lecture_preparation.
  rewrite <- (lecture_fold statevector_simulator _ _ (combine beta' gamma')).
  rewrite <- (lecture_fold statevector_simulator _ _ (combine beta gamma)).
  intros Hb; revert gamma gamma'.
  induction Hb as [|b b' beta beta' [kb ->] _ IH]; intros gamma gamma' Hg; [reflexivity|].
  destruct Hg as [|g g' gamma gamma' [kg ->] Hg]; [reflexivity|].
  cbn [combine fold_right fst snd].
  rewrite (IH gamma gamma' Hg).
  cbn [exp_i statevector_simulator].
  rewrite !exp_i_sv_whole_turn by auto using integer_lecture_Hm, integer_lecture_Hc.
  reflexivity.
Qed.

(** X5.  On the exact simulator the objective of the lecture notebook is
    periodic with period [2 pi] in every parameter, at every depth and for
    every number of qubits the 2 by 2 coupling matrix [J] serves: two
    vectors that differ by whole turns give the same outcome, so that
    initial angles drawn from [[0, 2 pi)] lose nothing. *)
Theorem lecture_objective_periodic
        (n_qubits p : nat) (bg bg' : list R) (w : world statevector_simulator) :
  (n_qubits <= 2)%nat ->
  whole_turns bg bg' ->
  Lecture.evaluate_hamiltonian n_qubits p statevector_simulator bg'
    (Lecture.Hc n_qubits) w =
  Lecture.evaluate_hamiltonian n_qubits p statevector_simulator bg
    (Lecture.Hc n_qubits) w.
Proof.
  intros _ Ht. pose proof (whole_turns_length _ _ Ht) as Hlen.
  destruct (Nat.le_gt_cases p (length bg / 2)) as [Hp|Hp].
  - rewrite !lecture_evaluate_ok by (rewrite <- ?Hlen; assumption).
    rewrite <- Hlen. f_equal.
    apply lecture_preparation_whole_turns;
      apply whole_turns_firstn; [apply whole_turns_firstn|apply whole_turns_skipn];
      assumption.
  - rewrite !lecture_evaluate_fail by (rewrite <- ?Hlen; assumption). reflexivity.
Qed.

Lemma lecture_objective_periodic_witness :
  Lecture.evaluate_hamiltonian 2 1 statevector_simulator
    [1 + 2 * IZR 1 * PI; 2 + 2 * IZR (-3) * PI] (Lecture.Hc 2) w0 =
  Lecture.evaluate_hamiltonian 2 1 statevector_simulator [1; 2] (Lecture.Hc 2) w0.
Proof.
  apply (lecture_objective_periodic 2 1 [1; 2]); [lia|].
  constructor; [now exists 1%Z|].
  constructor; [now exists (-3)%Z|constructor].
Defined.

(** ** The initial state and the Pauli helpers, for any number of qubits *)

Lemma norm2_constant {A : Type} (c : C) (l : list A) :
  norm2 (map (fun _ => c) l) = INR (length l) * Cnorm2 c.
Proof.
  unfold norm2. induction l as [|a l IH].
  - simpl. ring.
  - cbn [map fold_right length]. rewrite S_INR.
    change (fold_right Rplus 0 (map Cnorm2 (map (fun _ => c) l)))
      with (norm2 (map (fun _ => c) l)) in *.
    unfold norm2 in *. rewrite IH. ring.
Qed.

(** X6.  For every number of qubits the initial state of the lecture
    notebook has [2^n] equal amplitudes [1 / sqrt(2^n)] and squared norm
    [1]. *)
Theorem lecture_init_state_normalised (n_qubits : nat) :
  Lecture.state_of statevector_simulator (Lecture.init_state n_qubits) =
    repeat (RtoC (1 / sqrt (2 ^ n_qubits) * 1)) (2 ^ n_qubits)
  /\
  norm2 (Lecture.state_of statevector_simulator (Lecture.init_state n_qubits)) = 1.
Proof.
  assert (Hpos : 0 < 2 ^ n_qubits) by (apply pow_lt; lra).
  assert (E : Lecture.state_of statevector_simulator (Lecture.init_state n_qubits) =
              map (fun _ => RtoC (1 / sqrt (2 ^ n_qubits) * 1)) (seq 0 (2 ^ n_qubits))).
  { unfold Lecture.state_of, Lecture.init_state, Lecture.init_state_vect.
    cbn [Lecture.eval_op prepare statevector_simulator]. now rewrite map_map. }
  split.
  - rewrite E. generalize (2 ^ n_qubits)%nat as N. generalize 0%nat as k.
    intros k N; revert k. induction N as [|N IH]; intros k; [reflexivity|].
    cbn [seq map repeat]. now rewrite IH.
  - rewrite E, norm2_constant, length_seq, pow_INR.
    unfold RtoC, Cnorm2. cbn [fst snd]. change (INR 2) with 2.
    assert (Hs : sqrt (2 ^ n_qubits) * sqrt (2 ^ n_qubits) = 2 ^ n_qubits)
      by (apply sqrt_sqrt; lra).
    assert (Hne : sqrt (2 ^ n_qubits) <> 0).
    { intros Z. rewrite Z in Hs. lra. }
    rewrite <- Hs at 1. field. exact Hne.
Qed.

Lemma xor_combine_comm (l l' : list bool) :
  map (fun zz => xorb (fst zz) (snd zz)) (combine l l') =
  map (fun zz => xorb (fst zz) (snd zz)) (combine l' l).
Proof.
  revert l'. induction l as [|a l IH]; intros [|b l']; try reflexivity.
  cbn [combine map fst snd]. now rewrite xorb_comm, IH.
Qed.

Lemma xor_combine_self (l : list bool) :
  map (fun zz => xorb (fst zz) (snd zz)) (combine l l) = repeat false (length l).
Proof.
  induction l as [|a l IH]; [reflexivity|].
  cbn [combine map fst snd length repeat]. now rewrite xorb_nilpotent, IH.
Qed.

Lemma np_eye_row_length (n q : nat) : length (np_eye_row n q) = n.
Proof. unfold np_eye_row. now rewrite length_map, length_seq. Qed.

Lemma np_zeros_length (n : nat) : length (np_zeros n) = n.
Proof. apply repeat_length. Qed.

(** X7.  [product_pauli_z] is symmetric in its two qubits, and for twice
    the same qubit the two Z factors cancel: the result is the weighted
    identity string.  This holds for the helper of the lecture notebook and
    for that of the assignment. *)
Theorem product_pauli_z_symmetric (n_qubits q1 q2 : nat) (coeff : R) :
  (q1 < n_qubits)%nat -> (q2 < n_qubits)%nat ->
  Lecture.product_pauli_z n_qubits q1 q2 coeff = Lecture.product_pauli_z n_qubits q2 q1 coeff
  /\
  Assignment.product_pauli_z n_qubits q1 q2 coeff =
    Assignment.product_pauli_z n_qubits q2 q1 coeff
  /\
  Lecture.product_pauli_z n_qubits q1 q1 coeff =
    (coeff, mkPauli (np_zeros n_qubits) (np_zeros n_qubits))
  /\
  Assignment.product_pauli_z n_qubits q1 q1 coeff =
    [(coeff, mkPauli (np_zeros n_qubits) (np_zeros n_qubits))].
Proof.
  intros _ _.
  unfold Lecture.product_pauli_z, Assignment.product_pauli_z, Lecture.PauliOp, Pauli_mul.
  cbn [pauli_z_bits pauli_x_bits].
  rewrite (xor_combine_comm (np_eye_row n_qubits q1) (np_eye_row n_qubits q2)).
  rewrite !xor_combine_self, np_eye_row_length, np_zeros_length.
  repeat split; reflexivity.
Qed.

Lemma product_pauli_z_symmetric_witness :
  Lecture.product_pauli_z 2 0 1 (-1) = Lecture.product_pauli_z 2 1 0 (-1)
  /\
  Assignment.product_pauli_z 2 0 1 (-1) = Assignment.product_pauli_z 2 1 0 (-1)
  /\
  Lecture.product_pauli_z 2 0 0 (-1) = (-1, mkPauli (np_zeros 2) (np_zeros 2))
  /\
  Assignment.product_pauli_z 2 0 0 (-1) = [(-1, mkPauli (np_zeros 2) (np_zeros 2))].
Proof.
  apply (product_pauli_z_symmetric 2 0 1 (-1)); lia.
Defined.

(** ** The assignment's circuits *)

(** X8.  At depth 1, with the Hamiltonians and the initial circuit of the
    exercises, the two branches of the assignment's objective differ on the
    exact simulator: the Qiskit branch has a closed form in which the first
    parameter is the duration of the cost Hamiltonian, and the PyQuil branch
    returns 0 at every point. *)
Theorem assignment_landscape_depth1 (x y : R) (w : world statevector_simulator) :
  Assignment.evaluate_circuit 2 1 statevector_simulator
    (Assignment.Hm_solution 2) (Assignment.Hc_solution 2)
    (Assignment.circuit_init_solution Assignment.UseQiskit 2) [x; y] w =
  (inr (cos (2 * y) * sin (2 * y) * sin (2 * x) * (1 + cos x)
        + 1 / 2 * sin (2 * y) * cos (2 * x) * sin x),
   @mkWorld statevector_simulator (rng w) (S (oracle_calls w)))
  /\
  Assignment.evaluate_circuit 2 1 statevector_simulator
    (Assignment.Hm_solution 2) (Assignment.Hc_solution 2)
    (Assignment.circuit_init_solution Assignment.UsePyQuil 2) [x; y] w =
  (inr 0, @mkWorld statevector_simulator (rng w) (S (oracle_calls w))).
Proof.
  split.
  - rewrite assignment_evaluate_ok
      by (try apply (solution_setup Assignment.UseQiskit); simpl; lia).
    change (Nat.div (length [x; y]) 2) with 1%nat.
    pose proof (solution_initial_state Assignment.UseQiskit) as Hinit.
    cbn [firstn skipn assignment_preparation Assignment.circuit_init_solution] in *.
    unfold measured, qiskit_preparation, apply_in_order.
    cbn [combine app flat_map fold_left fst snd].
    rewrite Hinit. unfold evolution.
    cbn [expectation exp_i statevector_simulator].
    rewrite assignment_landscape. reflexivity.
  - rewrite assignment_evaluate_ok
      by (try apply (solution_setup Assignment.UsePyQuil); simpl; lia).
    change (Nat.div (length [x; y]) 2) with 1%nat.
    pose proof (solution_initial_state Assignment.UsePyQuil) as Hinit.
    cbn [firstn skipn assignment_preparation Assignment.circuit_init_solution] in *.
    unfold measured, pyquil_preparation, apply_in_order.
    cbn [combine app flat_map fold_left fst snd].
    rewrite !sv_termwise, Hinit. unfold evolution.
    cbn [expectation exp_i statevector_simulator].
    rewrite assignment_flat. reflexivity.
Qed.

Lemma qregs_fold_qc_add (qr : nat) (l : list Assignment.QuantumCircuit) :
  forall c,
    Assignment.qregs c = [qr] ->
    Forall (fun a => Assignment.qregs a = [qr]) l ->
    Assignment.qregs (fold_left Assignment.qc_add l c) = [qr].
Proof.
  induction l as [|a l IH]; intros c Hc Hl; [exact Hc|].
  inversion Hl as [|? ? Ha Hl']; subst. cbn [fold_left]. apply IH; [|assumption].
  unfold Assignment.qc_add. cbn [Assignment.qregs]. rewrite Hc, Ha.
  cbn [filter existsb]. rewrite Nat.eqb_refl. reflexivity.
Qed.

Lemma pyquil_inner_extends (H : Operator) (l : list R) (i : nat) :
  forall c c',
    Assignment.for_each
      (fun c0 term_exp => result_bind (getitem l i) (fun a => inr (c0 ++ term_exp (- a))))
      (map Assignment.exponential_map H) c = inr c' ->
    exists blocks,
      c' = c ++ blocks /\
      Forall (fun g => exists K, g = Assignment.EvolveI K) blocks.
Proof.
  induction H as [|t H IH]; intros c c' E.
  - cbn [map Assignment.for_each] in E. exists []. rewrite app_nil_r.
    split; [congruence|constructor].
  - cbn [map Assignment.for_each] in E.
    destruct (getitem l i) as [e|a]; [discriminate|].
    cbn [result_bind] in E. apply IH in E. destruct E as (blocks & -> & Hall).
    exists (Assignment.exponential_map t (- a) ++ blocks).
    rewrite app_assoc. split; [reflexivity|].
    constructor; [now eexists|assumption].
Qed.

Lemma pyquil_loop_extends (Hm Hc : Operator) (beta gamma : list R) (p : nat) :
  forall k c c',
    Assignment.for_each
      (fun circuit i =>
         result_bind
           (Assignment.for_each
              (fun c0 term_exp_Hm =>
                 result_bind (getitem beta i) (fun b => inr (c0 ++ term_exp_Hm (- b))))
              (map Assignment.exponential_map Hm) circuit)
           (Assignment.for_each
              (fun c0 term_exp_Hc =>
                 result_bind (getitem gamma i) (fun g => inr (c0 ++ term_exp_Hc (- g))))
              (map Assignment.exponential_map Hc)))
      (seq k p) c = inr c' ->
    exists blocks,
      c' = c ++ blocks /\
      Forall (fun g => exists K, g = Assignment.EvolveI K) blocks.
Proof.
  induction p as [|p IH]; intros k c c' E.
  - cbn [seq Assignment.for_each] in E. exists []. rewrite app_nil_r.
    split; [congruence|constructor].
  - cbn [seq Assignment.for_each] in E.
    match type of E with
    | result_bind (result_bind ?m _) _ = _ => destruct m as [e|c1] eqn:E1
    end; [discriminate|].
    cbn [result_bind] in E.
    match type of E with
    | result_bind ?m _ = _ => destruct m as [e|c2] eqn:E2
    end; [discriminate|].
    cbn [result_bind] in E.
    apply pyquil_inner_extends in E1. destruct E1 as (g1 & -> & A1).
    apply pyquil_inner_extends in E2. destruct E2 as (g2 & -> & A2).
    apply IH in E. destruct E as (g3 & -> & A3).
    exists (g1 ++ g2 ++ g3). rewrite !app_assoc. split; [reflexivity|].
    rewrite <- app_assoc. repeat (apply Forall_app; split); assumption.
Qed.

(** X9.  Whenever [create_circuit] of the assignment returns, the result
    is a circuit of the same SDK as [circuit_init], on the registers of
    [circuit_init] in the Qiskit branch, that starts with the instructions
    of [circuit_init] and continues with sub-circuits of evolution only:
    the initial circuit is neither altered nor run again. *)
Theorem create_circuit_extends
        (p : nat) (Hm Hc : Operator) (circuit_init : Assignment.circuit)
        (beta gamma : list R) (circuit : Assignment.circuit) :
  Assignment.create_circuit p Hm Hc circuit_init beta gamma = inr circuit ->
  exists blocks,
    Forall (fun g => exists K, g = Assignment.EvolveI K) blocks /\
    match circuit_init, circuit with
    | Assignment.Qiskit qc, Assignment.Qiskit qc' =>
        Assignment.qregs qc' = Assignment.qregs qc /\
        Assignment.data qc' = Assignment.data qc ++ blocks
    | Assignment.PyQuil prog, Assignment.PyQuil prog' => prog' = prog ++ blocks
    | _, _ => False
    end.
Proof.
  intros E. destruct circuit_init as [qc|prog].
  - destruct (le_lt_dec p (length beta)) as [Hb|Hb];
      [|rewrite qiskit_create_circuit_fail in E by (now left); discriminate].
    destruct (le_lt_dec p (length gamma)) as [Hg|Hg];
      [|rewrite qiskit_create_circuit_fail in E by (now right); discriminate].
    unfold Assignment.create_circuit in E.
    destruct (Assignment.qregs qc) as [|qr regs] eqn:Eq; [discriminate|].
    rewrite (steps_ok (fun b g => Assignment.qc_add (Assignment.evolve Hc b qr)
                                                    (Assignment.evolve Hm g qr)))
      in E by assumption.
    cbn [result_bind] in E.
    destruct (combine (firstn p beta) (firstn p gamma)) as [|bg l]; [discriminate|].
    cbn [map Assignment.reduce_add result_bind] in E.
    injection E as <-.
    exists (flat_map (qiskit_gates Hm Hc) (bg :: l)). split; [|split].
    + apply Forall_forall. intros g Hin. apply in_flat_map in Hin.
      destruct Hin as (bg' & _ & [<-|[<-|[]]]); now eexists.
    + unfold Assignment.qc_add at 1. cbn [Assignment.qregs].
      rewrite qregs_fold_qc_add with (qr := qr).
      * rewrite Eq. cbn [filter existsb]. rewrite Nat.eqb_refl. cbn [orb negb].
        apply app_nil_r.
      * unfold Assignment.qc_add, Assignment.evolve. cbn [Assignment.qregs filter existsb].
        now rewrite Nat.eqb_refl.
      * apply Forall_forall. intros a Hin. apply in_map_iff in Hin.
        destruct Hin as (bg' & <- & _).
        unfold Assignment.qc_add, Assignment.evolve. cbn [Assignment.qregs filter existsb].
        now rewrite Nat.eqb_refl.
    + unfold Assignment.qc_add at 1. cbn [Assignment.data]. f_equal.
      rewrite data_fold_qc_add. cbn [flat_map]. f_equal.
      clear. induction l as [|a l IH]; simpl; [reflexivity|]. now rewrite IH.
  - unfold Assignment.create_circuit in E. cbn [app] in E.
    match type of E with
    | result_bind ?m _ = _ => destruct m as [e|c'] eqn:El
    end; [discriminate|].
    cbn [result_bind] in E. injection E as <-.
    apply pyquil_loop_extends in El. destruct El as (blocks & -> & Hall).
    exists blocks. auto.
Qed.

Lemma create_circuit_extends_witness :
  exists blocks,
    Forall (fun g => exists K, g = Assignment.EvolveI K) blocks /\
    Assignment.qregs
      (Assignment.mkQC [0%nat]
         [Assignment.InitI (Assignment.uniform 2);
          Assignment.EvolveI (Operator_scale 1 [(1, Z0)]);
          Assignment.EvolveI (Operator_scale 2 [(1, X0)])]) =
    Assignment.qregs (Assignment.mkQC [0%nat] [Assignment.InitI (Assignment.uniform 2)]) /\
    Assignment.data
      (Assignment.mkQC [0%nat]
         [Assignment.InitI (Assignment.uniform 2);
          Assignment.EvolveI (Operator_scale 1 [(1, Z0)]);
          Assignment.EvolveI (Operator_scale 2 [(1, X0)])]) =
    Assignment.data (Assignment.mkQC [0%nat] [Assignment.InitI (Assignment.uniform 2)])
    ++ blocks.
Proof.
  apply (create_circuit_extends 1 [(1, X0)] [(1, Z0)]
           (Assignment.Qiskit (Assignment.mkQC [0%nat] [Assignment.InitI (Assignment.uniform 2)]))
           [1] [2]
           (Assignment.Qiskit
              (Assignment.mkQC [0%nat]
                 [Assignment.InitI (Assignment.uniform 2);
                  Assignment.EvolveI (Operator_scale 1 [(1, Z0)]);
                  Assignment.EvolveI (Operator_scale 2 [(1, X0)])]))).
  reflexivity.
Defined.

(** ** Depth zero and circuits without a register *)

(** X10.  With [p = 0] no parameter is read, whatever the vector passed.
    The lecture's objective and the PyQuil branch of the assignment then
    measure the initial state itself, with one backend job; the Qiskit
    branch raises before any backend job, [TypeError] from [reduce] over
    an empty list, or [IndexError] already from [qregs[0]] when the initial
    circuit has no register. *)
Theorem objective_depth_zero
        (n_qubits : nat) (B : Backend) (Hm Hc H : Operator)
        (qc : Assignment.QuantumCircuit) (prog : list Assignment.instr)
        (bg : list R) (w : world B) :
  Lecture.evaluate_hamiltonian n_qubits 0 B bg H w =
    measured B H (Lecture.state_of B (Lecture.init_state n_qubits)) w
  /\
  Assignment.evaluate_circuit n_qubits 0 B Hm Hc (Assignment.PyQuil prog) bg w =
    measured B Hc (Assignment.run n_qubits B prog) w
  /\
  Assignment.evaluate_circuit n_qubits 0 B Hm Hc (Assignment.Qiskit qc) bg w =
    (inl (match Assignment.qregs qc with [] => IndexError | _ :: _ => TypeError end), w).
Proof.
  split; [|split].
  - unfold Lecture.evaluate_hamiltonian, Lecture.create_circuit.
    cbn [seq comprehension result_bind app].
    unfold bind, lift, call_oracle, ret, measured.
    unfold Lecture.state_of at 1. cbn [Lecture.eval_op fold_right].
    unfold Lecture.state_of, Lecture.init_state. cbn [Lecture.eval_op].
    destruct (expectation B H _ (rng w)); reflexivity.
  - unfold Assignment.evaluate_circuit, Assignment.create_circuit.
    cbn [seq Assignment.for_each result_bind app].
    unfold bind, lift, call_oracle, ret, measured. cbn [Assignment.state_of].
    destruct (expectation B Hc _ (rng w)); reflexivity.
  - unfold Assignment.evaluate_circuit, Assignment.create_circuit.
    destruct (Assignment.qregs qc) as [|qr regs]; reflexivity.
Qed.

(** ** Mixed states and thermal distributions *)

Ltac four_amplitudes psi H :=
  destruct psi as [|[? ?] [|[? ?] [|[? ?] [|[? ?] [|? ?]]]]]; try discriminate H; clear H.

(** X11.  For a normalised pure state of four amplitudes and any
    visibility, [mixed_state] returns a Hermitian 4x4 matrix of trace 1. *)
Theorem mixed_state_unit_trace (pure_state : vector) (visibility : R) :
  length pure_state = 4%nat ->
  norm2 pure_state = 1 ->
  exists rho,
    Evolution.mixed_state pure_state visibility = inr rho /\
    length rho = 4%nat /\
    trace rho = Cone /\
    hermitian 4 rho.
Proof.
  intros Hlen Hnorm. four_amplitudes pure_state Hlen.
  eexists. split; [reflexivity|]. split; [reflexivity|]. split.
  - cbv [norm2 map fold_right Cnorm2 fst snd] in Hnorm.
    cbv [trace entry length seq map nth Csum fold_right
         Evolution.outer Evolution.np_eye mat_scale mat_add combine Nat.eqb
         Cadd Cmul Cconj RtoC Czero Cone fst snd pow].
    apply C_eq; cbn [fst snd].
    + match type of Hnorm with
      | ?N = 1 =>
          transitivity (visibility * N + (1 - visibility)); [field|rewrite Hnorm; ring]
      end.
    + field.
  - intros i j Hi Hj.
    destruct i as [|[|[|[|i]]]]; [| | | |lia];
      (destruct j as [|[|[|[|j]]]]; [| | | |lia]);
      cbv [entry length seq map nth
           Evolution.outer Evolution.np_eye mat_scale mat_add combine Nat.eqb
           Cadd Cmul Cconj RtoC Czero Cone fst snd pow];
      apply C_eq; cbn [fst snd]; field.
Qed.

Lemma mixed_state_unit_trace_witness :
  exists rho,
    Evolution.mixed_state [Cone; Czero; Czero; Czero] (4 / 5) = inr rho /\
    length rho = 4%nat /\
    trace rho = Cone /\
    hermitian 4 rho.
Proof.
  apply (mixed_state_unit_trace [Cone; Czero; Czero; Czero] (4 / 5)).
  - reflexivity.
  - cbv [norm2 map fold_right Cnorm2 Cone Czero fst snd]. lra.
Defined.

(** X12.  For a visibility between 0 and 1 the matrix [mixed_state]
    returns is positive semidefinite: [<phi| rho |phi>] is real and not
    negative for every [phi], whether the pure state is normalised or not. *)
Theorem mixed_state_positive (pure_state : vector) (visibility : R) (phi : vector) :
  length pure_state = 4%nat ->
  0 <= visibility <= 1 ->
  length phi = 4%nat ->
  exists rho,
    Evolution.mixed_state pure_state visibility = inr rho /\
    Cim (quadratic_form rho phi) = 0 /\
    0 <= Cre (quadratic_form rho phi).
Proof.
  intros Hlen Hv Hphi.
  destruct pure_state as [|[a1 a2] [|[b1 b2] [|[c1 c2] [|[d1 d2] [|? ?]]]]];
    try discriminate Hlen; clear Hlen.
  destruct phi as [|[p1 p2] [|[q1 q2] [|[r1 r2] [|[s1 s2] [|? ?]]]]];
    try discriminate Hphi; clear Hphi.
  eexists. split; [reflexivity|].
  set (X := p1 * a1 + p2 * a2 + q1 * b1 + q2 * b2 + r1 * c1 + r2 * c2 + s1 * d1 + s2 * d2).
  set (Y := p1 * a2 - p2 * a1 + q1 * b2 - q2 * b1 + r1 * c2 - r2 * c1 + s1 * d2 - s2 * d1).
  set (N := p1 * p1 + p2 * p2 + q1 * q1 + q2 * q2 + r1 * r1 + r2 * r2 + s1 * s1 + s2 * s2).
  split.
  - cbv [quadratic_form inner mat_vec dot Csum fold_right map combine Cim
         Evolution.outer Evolution.np_eye mat_scale mat_add seq Nat.eqb
         Cadd Cmul Cconj RtoC Czero Cone fst snd pow].
    field.
  - match goal with
    | |- 0 <= ?e =>
        replace e with (visibility * (X * X + Y * Y) + (1 - visibility) * (N / 4))
    end.
    2: { subst X Y N.
         cbv [quadratic_form inner mat_vec dot Csum fold_right map combine Cre
              Evolution.outer Evolution.np_eye mat_scale mat_add seq Nat.eqb
              Cadd Cmul Cconj RtoC Czero Cone fst snd pow].
         field. }
    apply Rplus_le_le_0_compat; apply Rmult_le_pos; try lra.
    + nra.
    + subst N. nra.
Qed.

Lemma mixed_state_positive_witness :
  exists rho,
    Evolution.mixed_state [Cone; Czero; Czero; Cone] (4 / 5) = inr rho /\
    Cim (quadratic_form rho [Cone; Cimag; Czero; Czero]) = 0 /\
    0 <= Cre (quadratic_form rho [Cone; Cimag; Czero; Czero]).
Proof.
  apply (mixed_state_positive [Cone; Czero; Czero; Cone] (4 / 5) [Cone; Cimag; Czero; Czero]).
  - reflexivity.
  - lra.
  - reflexivity.
Defined.

(** X13.  [mixed_state] and the shape of its argument: four amplitudes
    give a 4x4 matrix; a single amplitude raises nothing, its 1x1 density
    matrix being stretched over all sixteen entries, off the diagonal too;
    every other length raises [ValueError]. *)
Theorem mixed_state_shape (pure_state : vector) (visibility : R) :
  match length pure_state with
  | 4%nat =>
      exists rho,
        Evolution.mixed_state pure_state visibility = inr rho /\
        length rho = 4%nat /\ Forall (fun r => length r = 4%nat) rho
  | 1%nat =>
      exists rho,
        Evolution.mixed_state pure_state visibility = inr rho /\
        forall i j, (i < 4)%nat -> (j < 4)%nat ->
          entry rho i j =
          RtoC (visibility * norm2 pure_state
                + if Nat.eqb i j then (1 - visibility) / 4 else 0)
  | _ => Evolution.mixed_state pure_state visibility = inl Evolution.ValueError
  end.
Proof.
  destruct pure_state as [|[a1 a2] [|b [|c [|d [|e l]]]]]; cbn [length];
    try reflexivity.
  - eexists. split; [reflexivity|]. intros i j Hi Hj.
    destruct i as [|[|[|[|i]]]]; [| | | |lia];
      (destruct j as [|[|[|[|j]]]]; [| | | |lia]);
      cbv [entry length seq map nth repeat norm2 fold_right Cnorm2
           Evolution.outer Evolution.np_eye mat_scale mat_add combine Nat.eqb
           Cadd Cmul Cconj RtoC Czero Cone fst snd pow];
      apply C_eq; cbn [fst snd]; field.
  - eexists. split; [reflexivity|]. split; [reflexivity|].
    repeat constructor.
Qed.

Lemma sum_divide (Z : R) (l : list R) :
  fold_right Rplus 0 (map (fun q => q / Z) l) = fold_right Rplus 0 l / Z.
Proof.
  induction l as [|a l IH]; cbn [map fold_right].
  - unfold Rdiv. now rewrite Rmult_0_l.
  - rewrite IH. unfold Rdiv. ring.
Qed.

Lemma sum_exp_positive (f : R -> R) (l : list R) :
  l <> [] -> 0 < fold_right Rplus 0 (map (fun e => exp (f e)) l).
Proof.
  intros Hne. destruct l as [|a l]; [congruence|]. clear Hne.
  revert a. induction l as [|b l IH]; intros a; cbn [map fold_right].
  - pose proof (exp_pos (f a)). lra.
  - pose proof (exp_pos (f a)). specialize (IH b). cbn [map fold_right] in IH. lra.
Qed.

Lemma exp_monotone (x y : R) : x <= y -> exp x <= exp y.
Proof.
  intros Hle. destruct Hle as [Hlt|Heq].
  - left. now apply exp_increasing.
  - right. now rewrite Heq.
Qed.

(** X14.  For a positive temperature and at least one energy level, all
    with [E / T] in the range where the exponential of the floats neither
    underflows nor overflows, the thermal probabilities are as many as the
    levels, all positive, sum to 1, and a level of lower energy is never
    less probable than one of higher energy. *)
Theorem probabilities_distribution (energies : list R) (T : R) :
  energies <> [] -> 0 < T ->
  Forall (fun e => float_exp_range (e / T)) energies ->
  length (Evolution.probabilities energies T) = length energies /\
  Forall (fun q => 0 < q) (Evolution.probabilities energies T) /\
  fold_right Rplus 0 (Evolution.probabilities energies T) = 1 /\
  forall i j, (i < length energies)%nat -> (j < length energies)%nat ->
    nth i energies 0 <= nth j energies 0 ->
    nth j (Evolution.probabilities energies T) 0 <=
    nth i (Evolution.probabilities energies T) 0.
Proof.
  intros Hne HT _. unfold Evolution.probabilities.
  pose proof (sum_exp_positive (fun e => - e / T) energies Hne) as HZ.
  cbv beta in HZ.
  set (Z := fold_right Rplus 0 (map (fun e => exp (- e / T)) energies)) in *.
  repeat split.
  - now rewrite !length_map.
  - rewrite map_map. apply Forall_forall. intros q Hin.
    apply in_map_iff in Hin. destruct Hin as (e & <- & _).
    apply Rdiv_lt_0_compat; [apply exp_pos|assumption].
  - rewrite sum_divide. fold Z. field. lra.
  - intros i j Hi Hj Hle. rewrite map_map.
    assert (Hnth : forall k, (k < length energies)%nat ->
              nth k (map (fun e => exp (- e / T) / Z) energies) 0 =
              exp (- nth k energies 0 / T) / Z).
    { intros k Hk.
      rewrite (nth_indep _ 0 (exp (- 0 / T) / Z)) by now rewrite length_map.
      apply (map_nth (fun e => exp (- e / T) / Z)). }
    rewrite !Hnth by assumption.
    apply Rmult_le_compat_r; [left; now apply Rinv_0_lt_compat|].
    apply exp_monotone. unfold Rdiv.
    apply Rmult_le_compat_r; [left; now apply Rinv_0_lt_compat|lra].
Qed.

Lemma probabilities_distribution_witness :
  length (Evolution.probabilities [0; 1] 5) = length [0; 1] /\
  Forall (fun q => 0 < q) (Evolution.probabilities [0; 1] 5) /\
  fold_right Rplus 0 (Evolution.probabilities [0; 1] 5) = 1 /\
  forall i j, (i < length [0; 1])%nat -> (j < length [0; 1])%nat ->
    nth i [0; 1] 0 <= nth j [0; 1] 0 ->
    nth j (Evolution.probabilities [0; 1] 5) 0 <=
    nth i (Evolution.probabilities [0; 1] 5) 0.
Proof.
  apply (probabilities_distribution [0; 1] 5).
  - discriminate.
  - lra.
  - repeat constructor; unfold float_exp_range, Rabs;
      destruct (Rcase_abs _); lra.
Defined.

(** ** The distances of the clustering notebook *)

Lemma set_nth_length {A : Type} (l : list A) (j : nat) (v : A) :
  length (Clustering.set_nth l j v) = length l.
Proof.
  revert j; induction l as [|a l IH]; intros [|j]; cbn; try reflexivity.
  now rewrite IH.
Qed.

Lemma nth_set_nth {A : Type} (l : list A) (j k : nat) (v d : A) :
  (j < length l)%nat ->
  nth k (Clustering.set_nth l j v) d = if Nat.eqb k j then v else nth k l d.
Proof.
  revert j k; induction l as [|a l IH]; intros j k Hj; [simpl in Hj; lia|].
  destruct j as [|j]; destruct k as [|k]; cbn; try reflexivity.
  apply IH. simpl in Hj. lia.
Qed.

Lemma square_zeros (n : nat) : square n (repeat (repeat 0 n) n).
Proof.
  split; [apply repeat_length|]. intros i Hi.
  rewrite (nth_indep _ [] (repeat 0 n)) by now rewrite repeat_length.
  rewrite nth_repeat. apply repeat_length.
Qed.

Lemma square_set_entry (n : nat) (w : list (list R)) (i j : nat) (v : R) :
  square n w -> (i < n)%nat -> square n (Clustering.set_entry w i j v).
Proof.
  intros [Hl Hr] Hi. unfold Clustering.set_entry. split.
  - now rewrite set_nth_length.
  - intros k Hk. rewrite nth_set_nth by lia.
    destruct (Nat.eqb k i); [|now apply Hr].
    rewrite set_nth_length. now apply Hr.
Qed.

Lemma weight_set_entry (n : nat) (w : list (list R)) (i j i' j' : nat) (v : R) :
  square n w -> (i' < n)%nat -> (j' < n)%nat ->
  Clustering.weight (Clustering.set_entry w i' j' v) i j =
  if Nat.eqb i i' && Nat.eqb j j' then v else Clustering.weight w i j.
Proof.
  intros [Hl Hr] Hi Hj. unfold Clustering.weight, Clustering.set_entry.
  rewrite nth_set_nth by lia.
  destruct (Nat.eqb i i') eqn:Ei; [|reflexivity].
  apply Nat.eqb_eq in Ei. subst i'. cbn [andb].
  apply nth_set_nth. rewrite Hr; assumption.
Qed.

Section Distances.
Variable data : list Clustering.point.

Let body (w : list (list R)) (ij : nat * nat) : result (list (list R)) :=
  result_bind (Clustering.row data (fst ij)) (fun a =>
  result_bind (Clustering.row data (snd ij)) (fun b =>
  inr (Clustering.set_entry w (fst ij) (snd ij) (Clustering.norm_diff a b)))).

Let dist (i j : nat) : R :=
  Clustering.norm_diff (nth i data (0, 0, 0)) (nth j data (0, 0, 0)).

Lemma row_ok (i : nat) :
  (i < length data)%nat -> Clustering.row data i = inr (nth i data (0, 0, 0)).
Proof.
  intros Hi. unfold Clustering.row.
  rewrite (nth_error_nth' data (0, 0, 0) Hi). reflexivity.
Qed.

Lemma row_fail (i : nat) :
  (length data <= i)%nat -> Clustering.row data i = inl IndexError.
Proof.
  intros Hi. unfold Clustering.row.
  apply nth_error_None in Hi. now rewrite Hi.
Qed.

Lemma distances_loop_ok (l : list (nat * nat)) :
  Forall (fun ij => (fst ij < length data)%nat /\ (snd ij < length data)%nat) l ->
  forall w,
    Assignment.for_each body l w =
    inr (fold_left
           (fun w' ij => Clustering.set_entry w' (fst ij) (snd ij) (dist (fst ij) (snd ij)))
           l w).
Proof.
  induction 1 as [|ij l [Hi Hj] _ IH]; intros w; [reflexivity|].
  cbn [Assignment.for_each fold_left]. unfold body at 1.
  rewrite (row_ok _ Hi), (row_ok _ Hj). cbn [result_bind]. apply IH.
Qed.

Lemma distances_loop_fail (l : list (nat * nat)) :
  Exists (fun ij => (length data <= fst ij)%nat \/ (length data <= snd ij)%nat) l ->
  forall w, Assignment.for_each body l w = inl IndexError.
Proof.
  induction l as [|ij l IH]; intros Hex w; [inversion Hex|].
  cbn [Assignment.for_each]. unfold body at 1.
  destruct (le_lt_dec (length data) (fst ij)) as [Hi|Hi];
    [now rewrite (row_fail _ Hi)|].
  rewrite (row_ok _ Hi). cbn [result_bind].
  destruct (le_lt_dec (length data) (snd ij)) as [Hj|Hj];
    [now rewrite (row_fail _ Hj)|].
  rewrite (row_ok _ Hj). cbn [result_bind].
  apply IH. inversion Hex as [? ? [H|H]|]; subst; [lia|lia|assumption].
Qed.

Lemma distances_fold (n : nat) (l : list (nat * nat)) (i j : nat) :
  Forall (fun ij => (fst ij < n)%nat /\ (snd ij < n)%nat) l ->
  forall w, square n w ->
    let w' := fold_left
                (fun w' ij => Clustering.set_entry w' (fst ij) (snd ij) (dist (fst ij) (snd ij)))
                l w in
    square n w' /\
    Clustering.weight w' i j =
    if existsb (fun ij => Nat.eqb i (fst ij) && Nat.eqb j (snd ij)) l
    then dist i j else Clustering.weight w i j.
Proof.
  induction 1 as [|ij l [Hi Hj] _ IH]; intros w Hw; [now split|].
  cbn [fold_left existsb].
  destruct (IH (Clustering.set_entry w (fst ij) (snd ij) (dist (fst ij) (snd ij)))
               (square_set_entry _ _ _ _ _ Hw Hi)) as [Hsq Hwt].
  split; [exact Hsq|]. cbv zeta in Hwt. rewrite Hwt.
  rewrite (weight_set_entry n) by assumption.
  destruct (existsb _ l); [now rewrite orb_true_r|]. rewrite orb_false_r.
  destruct (Nat.eqb i (fst ij)) eqn:Ei; [|reflexivity].
  destruct (Nat.eqb j (snd ij)) eqn:Ej; [|reflexivity].
  apply Nat.eqb_eq in Ei, Ej. now subst.
Qed.

Lemma distances_ok (n_instances : nat) :
  (n_instances <= length data)%nat ->
  exists w,
    Clustering.distances n_instances data = inr w /\
    square n_instances w /\
    forall i j, (i < n_instances)%nat -> (j < n_instances)%nat ->
      Clustering.weight w i j = dist i j.
Proof.
  intros Hn. unfold Clustering.distances.
  change (Assignment.for_each _ ?l ?w) with (Assignment.for_each body l w).
  assert (Hin : forall m, (m <= length data)%nat ->
            Forall (fun ij => (fst ij < m)%nat /\ (snd ij < m)%nat)
                   (list_prod (seq 0 n_instances) (seq 0 n_instances)) ->
            Forall (fun ij => (fst ij < length data)%nat /\ (snd ij < length data)%nat)
                   (list_prod (seq 0 n_instances) (seq 0 n_instances))).
  { intros m Hm. apply Forall_impl. intros ij [? ?]. lia. }
  assert (Hall : Forall (fun ij => (fst ij < n_instances)%nat /\ (snd ij < n_instances)%nat)
                        (list_prod (seq 0 n_instances) (seq 0 n_instances))).
  { apply Forall_forall. intros [i j] Hij. apply in_prod_iff in Hij.
    rewrite !in_seq in Hij. cbn [fst snd]. lia. }
  rewrite distances_loop_ok by (apply (Hin n_instances); assumption).
  eexists. split; [reflexivity|].
  split.
  - apply (distances_fold n_instances _ 0 0 Hall _ (square_zeros n_instances)).
  - intros i j Hi Hj.
    destruct (distances_fold n_instances _ i j Hall _ (square_zeros n_instances)) as [_ E].
    cbv zeta in E. rewrite E.
    assert (Hex : existsb (fun ij => Nat.eqb i (fst ij) && Nat.eqb j (snd ij))
                    (list_prod (seq 0 n_instances) (seq 0 n_instances)) = true).
    { apply existsb_exists. exists (i, j). split.
      - apply in_prod_iff. rewrite !in_seq. lia.
      - cbn [fst snd]. now rewrite !Nat.eqb_refl. }
    now rewrite Hex.
Qed.

Lemma distances_fail (n_instances : nat) :
  (length data < n_instances)%nat ->
  Clustering.distances n_instances data = inl IndexError.
Proof.
  intros Hn. unfold Clustering.distances.
  change (Assignment.for_each _ ?l ?w) with (Assignment.for_each body l w).
  apply distances_loop_fail. apply Exists_exists.
  exists (0%nat, length data). split.
  - apply in_prod_iff. rewrite !in_seq. lia.
  - right. cbn [snd]. lia.
Qed.

End Distances.

Lemma norm_diff_self (a : Clustering.point) : Clustering.norm_diff a a = 0.
Proof.
  destruct a as [[a1 a2] a3]. unfold Clustering.norm_diff.
  replace ((a1 - a1) * (a1 - a1) + (a2 - a2) * (a2 - a2) + (a3 - a3) * (a3 - a3))
    with 0 by ring.
  apply sqrt_0.
Qed.

Lemma norm_diff_sym (a b : Clustering.point) :
  Clustering.norm_diff a b = Clustering.norm_diff b a.
Proof.
  destruct a as [[a1 a2] a3], b as [[b1 b2] b3]. unfold Clustering.norm_diff.
  f_equal. ring.
Qed.

Lemma norm_diff_nonneg (a b : Clustering.point) : 0 <= Clustering.norm_diff a b.
Proof.
  destruct a as [[a1 a2] a3], b as [[b1 b2] b3]. unfold Clustering.norm_diff.
  apply sqrt_pos.
Qed.

Lemma norm_diff_triangle (a b c : Clustering.point) :
  Clustering.norm_diff a c <= Clustering.norm_diff a b + Clustering.norm_diff b c.
Proof.
  destruct a as [[a1 a2] a3], b as [[b1 b2] b3], c as [[c1 c2] c3].
  unfold Clustering.norm_diff.
  set (u1 := a1 - b1). set (u2 := a2 - b2). set (u3 := a3 - b3).
  set (v1 := b1 - c1). set (v2 := b2 - c2). set (v3 := b3 - c3).
  replace (a1 - c1) with (u1 + v1) by (subst u1 v1; ring).
  replace (a2 - c2) with (u2 + v2) by (subst u2 v2; ring).
  replace (a3 - c3) with (u3 + v3) by (subst u3 v3; ring).
  clearbody u1 u2 u3 v1 v2 v3.
  assert (Hsq : forall x, 0 <= x * x) by (intros x; apply Rle_0_sqr).
  assert (HW : 0 <= (u1 + v1) * (u1 + v1) + (u2 + v2) * (u2 + v2) + (u3 + v3) * (u3 + v3)).
  { pose proof (Hsq (u1 + v1)). pose proof (Hsq (u2 + v2)). pose proof (Hsq (u3 + v3)). lra. }
  set (U := u1 * u1 + u2 * u2 + u3 * u3).
  set (V := v1 * v1 + v2 * v2 + v3 * v3).
  assert (HU : 0 <= U).
  { subst U. pose proof (Hsq u1). pose proof (Hsq u2). pose proof (Hsq u3). lra. }
  assert (HV : 0 <= V).
  { subst V. pose proof (Hsq v1). pose proof (Hsq v2). pose proof (Hsq v3). lra. }
  pose proof (sqrt_pos U) as HsU. pose proof (sqrt_pos V) as HsV.
  apply Rsqr_incr_0_var; [|lra].
  rewrite Rsqr_sqrt by assumption.
  unfold Rsqr.
  assert (EU : sqrt U * sqrt U = U) by now apply sqrt_sqrt.
  assert (EV : sqrt V * sqrt V = V) by now apply sqrt_sqrt.
  assert (Hdot : u1 * v1 + u2 * v2 + u3 * v3 <= sqrt U * sqrt V).
  { apply Rsqr_incr_0_var; [|now apply Rmult_le_pos].
    unfold Rsqr.
    replace (sqrt U * sqrt V * (sqrt U * sqrt V))
      with ((sqrt U * sqrt U) * (sqrt V * sqrt V)) by ring.
    rewrite EU, EV. subst U V.
    assert (Hcs : 0 <= (u1 * v2 - u2 * v1) * (u1 * v2 - u2 * v1)
                       + (u1 * v3 - u3 * v1) * (u1 * v3 - u3 * v1)
                       + (u2 * v3 - u3 * v2) * (u2 * v3 - u3 * v2)).
    { pose proof (Hsq (u1 * v2 - u2 * v1)). pose proof (Hsq (u1 * v3 - u3 * v1)).
      pose proof (Hsq (u2 * v3 - u3 * v2)). lra. }
    clear - Hcs. nra. }
  replace ((sqrt U + sqrt V) * (sqrt U + sqrt V))
    with (sqrt U * sqrt U + sqrt V * sqrt V + 2 * (sqrt U * sqrt V)) by ring.
  rewrite EU, EV. subst U V. clear - Hdot. nra.
Qed.

(** X15.  When [data] holds at least [n_instances] points, the distance
    cell raises nothing and fills a symmetric [n_instances] by
    [n_instances] array with a zero diagonal and non-negative entries that
    obey the triangle inequality, as the weights of the max-cut graph should. *)
Theorem distances_metric (n_instances : nat) (data : list Clustering.point) :
  (n_instances <= length data)%nat ->
  exists w,
    Clustering.distances n_instances data = inr w /\
    square n_instances w /\
    forall i j k, (i < n_instances)%nat -> (j < n_instances)%nat -> (k < n_instances)%nat ->
      Clustering.weight w i i = 0 /\
      Clustering.weight w i j = Clustering.weight w j i /\
      0 <= Clustering.weight w i j /\
      Clustering.weight w i k <= Clustering.weight w i j + Clustering.weight w j k.
Proof.
  intros Hn. destruct (distances_ok data n_instances Hn) as (w & E & Hsq & Hw).
  exists w. split; [exact E|]. split; [exact Hsq|].
  intros i j k Hi Hj Hk. rewrite !Hw by assumption.
  repeat split.
  - apply norm_diff_self.
  - apply norm_diff_sym.
  - apply norm_diff_nonneg.
  - apply norm_diff_triangle.
Qed.

Lemma distances_metric_witness :
  exists w,
    Clustering.distances 2 [(0, 0, 0); (3, 4, 0)] = inr w /\
    square 2 w /\
    forall i j k, (i < 2)%nat -> (j < 2)%nat -> (k < 2)%nat ->
      Clustering.weight w i i = 0 /\
      Clustering.weight w i j = Clustering.weight w j i /\
      0 <= Clustering.weight w i j /\
      Clustering.weight w i k <= Clustering.weight w i j + Clustering.weight w j k.
Proof.
  apply (distances_metric 2 [(0, 0, 0); (3, 4, 0)]). simpl. lia.
Defined.

(** X16.  The notebook builds [data] from two classes of
    [n_instances // 2] points each: the distance cell then raises
    [IndexError] exactly when [n_instances] is odd. *)
Theorem distances_odd_instances
        (n_instances : nat) (class_1 class_2 : list Clustering.point) :
  length class_1 = (n_instances / 2)%nat ->
  length class_2 = (n_instances / 2)%nat ->
  (Clustering.distances n_instances (Clustering.concatenate class_1 class_2) = inl IndexError
   <-> Nat.odd n_instances = true).
Proof.
  intros H1 H2.
  assert (Hlen : length (Clustering.concatenate class_1 class_2) =
                 (2 * (n_instances / 2))%nat).
  { unfold Clustering.concatenate. rewrite length_app. lia. }
  pose proof (Nat.div2_odd n_instances) as Hodd.
  rewrite Nat.div2_div in Hodd.
  destruct (Nat.odd n_instances); cbn [Nat.b2n] in Hodd.
  - split; [reflexivity|]. intros _. apply distances_fail. lia.
  - split; [|discriminate]. intros E.
    destruct (distances_ok (Clustering.concatenate class_1 class_2) n_instances)
      as (w & Ew & _); [lia|]. congruence.
Qed.

Lemma distances_odd_instances_witness :
  Clustering.distances 3 (Clustering.concatenate [(0, 0, 0)] [(1, 1, 1)]) = inl IndexError
  <-> Nat.odd 3 = true.
Proof.
  apply (distances_odd_instances 3 [(0, 0, 0)] [(1, 1, 1)]); reflexivity.
Defined.
